(** * typed-fastify: the runtime of [addSchema]

    A shallow embedding of the executable part of [src/typed-fastify.ts]
    (the function [addSchema], lines 10-108; what follows it in the file is
    type declarations, erased by the TypeScript compiler) and the properties
    of it that the specification states.

    - JavaScript values are an inductive type [value]; an object is the list
      of its own enumerable properties in [[OwnPropertyKeys]] order.
    - [throw] is a result in a sum type; the calls into the Fastify instance
      are recorded, in order, in a trace that survives a [throw].  The
      instance is external: whether a call into it returns or throws is
      decided by a parameter, [server], and what it does with a hook or a
      route is not part of the model.
    - [String.prototype.toUpperCase] belongs to the JavaScript runtime and is
      a parameter of the development. *)

From Stdlib Require Import String Ascii List Bool Arith NArith ZArith Lia.
From Stdlib Require Import SpecFloat DecimalString DecimalNat Sorted.
Import ListNotations.

Local Open Scope string_scope.
Local Open Scope list_scope.

Set Warnings "-register-all".

(** ** JavaScript values *)

Module JS.

(** A number is an IEEE-754 binary64 datum, a string a sequence of code
    units, an array the list of its elements, an object the association
    list of its own enumerable string-keyed properties, a function an opaque
    identity. *)
Inductive value : Type :=
| VUndefined
| VNull
| VBool (b : bool)
| VNumber (x : spec_float)
| VString (s : string)
| VArray (elements : list value)
| VObject (properties : list (string * value))
| VFunction (id : nat).

Definition obj : Type := list (string * value).

(** ToBoolean. *)
Definition truthy (v : value) : bool :=
  match v with
  | VUndefined | VNull => false
  | VBool b => b
  | VNumber (S754_zero _) | VNumber S754_nan => false
  | VNumber _ => true
  | VString s => negb (s =? "")
  | VArray _ | VObject _ | VFunction _ => true
  end.

Definition nullish (v : value) : bool :=
  match v with
  | VUndefined | VNull => true
  | _ => false
  end.

(** The [typeof] operator. *)
Definition typeof (v : value) : string :=
  match v with
  | VUndefined => "undefined"
  | VNull => "object"
  | VBool _ => "boolean"
  | VNumber _ => "number"
  | VString _ => "string"
  | VArray _ | VObject _ => "object"
  | VFunction _ => "function"
  end.

(** [a || b], [a && b] and [a ?? b] on values. *)
Definition js_or (a b : value) : value := if truthy a then a else b.
Definition js_and (a b : value) : value := if truthy a then b else a.
Definition js_coalesce (a b : value) : value := if nullish a then b else a.

(** ** Property keys *)

Definition digit_of (c : ascii) : option N :=
  let n := N_of_ascii c in
  if (48 <=? n)%N && (n <=? 57)%N then Some (n - 48)%N else None.

Fixpoint parse_digits (acc : N) (s : string) : option N :=
  match s with
  | EmptyString => Some acc
  | String c s' =>
      match digit_of c with
      | Some d => parse_digits (10 * acc + d)%N s'
      | None => None
      end
  end.

(** An array index is a canonical numeric string below 2^32 - 1; such keys
    are enumerated first, in ascending order. *)
Definition array_index (k : string) : option N :=
  match k with
  | EmptyString => None
  | String c s' =>
      if (c =? "0")%char then (if s' =? "" then Some 0%N else None)
      else match parse_digits 0 k with
           | Some n => if (n <? 4294967295)%N then Some n else None
           | None => None
           end
  end.

Definition index_key (i : nat) : string :=
  NilEmpty.string_of_uint (Nat.to_uint i).

Definition number_of_nat (n : nat) : spec_float :=
  match n with
  | O => S754_zero false
  | S _ => S754_finite false (Pos.of_nat n) 0%Z
  end.

(** ** Objects *)

Fixpoint obj_get (k : string) (o : obj) : option value :=
  match o with
  | [] => None
  | (k', v) :: o' => if k' =? k then Some v else obj_get k o'
  end.

Definition obj_has (k : string) (o : obj) : bool :=
  match obj_get k o with Some _ => true | None => false end.

(** [o[k]] for [o] a plain object: [undefined] when [k] is absent.  The keys
    this module reads ([$id], [request], [properties], [response],
    [handler], and route keys, which contain a space) are not properties of
    the built-in prototypes. *)
Definition obj_lookup (o : obj) (k : string) : value :=
  match obj_get k o with Some v => v | None => VUndefined end.

Fixpoint obj_update (k : string) (v : value) (o : obj) : obj :=
  match o with
  | [] => []
  | (k', v') :: o' =>
      if k' =? k then (k', v) :: o' else (k', v') :: obj_update k v o'
  end.

(** A new array-index key goes before the first key that is not an array
    index or is a larger one. *)
Fixpoint obj_insert_index (n : N) (k : string) (v : value) (o : obj) : obj :=
  match o with
  | [] => [(k, v)]
  | (k', v') :: o' =>
      match array_index k' with
      | Some n' =>
          if (n <? n')%N then (k, v) :: o
          else (k', v') :: obj_insert_index n k v o'
      | None => (k, v) :: o
      end
  end.

(** CreateDataProperty: an existing key keeps its place, a new key is
    created. *)
Definition obj_set (k : string) (v : value) (o : obj) : obj :=
  if obj_has k o then obj_update k v o
  else match array_index k with
       | Some n => obj_insert_index n k v o
       | None => o ++ [(k, v)]
       end.

Fixpoint indexed {A : Type} (f : A -> value) (i : nat) (l : list A) : obj :=
  match l with
  | [] => []
  | x :: l' => (index_key i, f x) :: indexed f (S i) l'
  end.

Definition code_units (s : string) : list ascii := list_ascii_of_string s.

(** The own enumerable properties that [{...v}] copies. *)
Definition own_props (v : value) : obj :=
  match v with
  | VObject o => o
  | VArray l => indexed (fun x => x) 0 l
  | VString s => indexed (fun c => VString (String c "")) 0 (code_units s)
  | _ => []
  end.

(** [{...target, ...src}]: CopyDataProperties into the object under
    construction. *)
Definition spread (target : obj) (src : value) : obj :=
  fold_left (fun acc kv => obj_set (fst kv) (snd kv) acc) (own_props src) target.

(** [[Get]] on a value that is neither [null] nor [undefined]. *)
Definition get_own (v : value) (k : string) : value :=
  match v with
  | VObject o => obj_lookup o k
  | VArray l =>
      if k =? "length" then VNumber (number_of_nat (List.length l))
      else match array_index k with
           | Some n => nth (N.to_nat n) l VUndefined
           | None => VUndefined
           end
  | VString s =>
      if k =? "length" then VNumber (number_of_nat (String.length s))
      else match array_index k with
           | Some n =>
               match nth_error (code_units s) (N.to_nat n) with
               | Some c => VString (String c "")
               | None => VUndefined
               end
           | None => VUndefined
           end
  | _ => VUndefined
  end.

(** Exceptions: [Error(message)] thrown by the module, and the [TypeError]
    the runtime throws when a property of [null] or [undefined] is read. *)
Inductive exn : Type :=
| Error (message : string)
| TypeError (reading : string).

Definition res (A : Type) : Type := (exn + A)%type.

(** [v.k] *)
Definition js_get (v : value) (k : string) : res value :=
  if nullish v then inl (TypeError k) else inr (get_own v k).

(** [v?.k] *)
Definition js_get_opt (v : value) (k : string) : value :=
  if nullish v then VUndefined else get_own v k.

End JS.

Import JS.

(** ** Requests, replies and route configurations

    The fields of Fastify's objects that [addSchema] reads or writes, at
    their declared types. *)

Record request : Type := mkRequest {
  req_method : string;
  req_routerPath : string;
  req_operationPath : value
}.

Record reply : Type := mkReply {
  reply_request : request
}.

(** The argument of an [onRoute] hook. *)
Record route_config : Type := mkConfig {
  cfg_prefix : string;
  cfg_method : string;
  cfg_routePath : string;
  cfg_schema : value
}.

Definition set_schema (config : route_config) (s : value) : route_config :=
  {| cfg_prefix := cfg_prefix config;
     cfg_method := cfg_method config;
     cfg_routePath := cfg_routePath config;
     cfg_schema := s |}.

(** The service declaration: its own enumerable properties in enumeration
    order, and the enumerable properties it inherits (which [for ... in]
    visits too). *)
Record service_object : Type := mkService {
  own : obj;
  inherited : obj
}.

(** The argument [opts] of [addSchema]. *)
Record options : Type := mkOptions {
  jsonSchema_schema : value;
  jsonSchema_fastify : obj;
  swaggerSecurityMap : option obj;
  service : service_object
}.

(** The template literal [`${a} ${b}`] on strings. *)
Definition template (a b : string) : string := a ++ " " ++ b.

(** *** [matches] and [asReply] (reply decorators) *)

Definition matches (this : reply) (routeWithMethod : string) : bool :=
  template (req_method (reply_request this))
           (req_routerPath (reply_request this)) =? routeWithMethod.

Definition asReply (this : reply) : reply := this.

(** *** The [onRequest] hook *)

(** What a hook passes to its [done] callback. *)
Inductive done_call : Type :=
| done (err : option exn).

Definition onRequest (req : request) (_ : reply) : request * done_call :=
  ({| req_method := req_method req;
      req_routerPath := req_routerPath req;
      req_operationPath :=
        VString (template (req_method req) (req_routerPath req)) |},
   done None).

(** *** The [onRoute] hook *)

(** The fragment the hook settles on: the direct lookup under [key], then
    the two root-path retries. *)
Definition maybeSchema (opts : options) (config : route_config) : value :=
  let key := template (cfg_method config) (cfg_routePath config) in
  let fastifySchema := jsonSchema_fastify opts in
  let maybeSchema := obj_lookup fastifySchema key in
  let maybeSchema :=
    if negb (truthy maybeSchema) && (cfg_routePath config =? "")
    then obj_lookup fastifySchema (template (cfg_method config) "/")
    else maybeSchema in
  let maybeSchema :=
    if negb (truthy maybeSchema) && (cfg_routePath config =? "/")
    then obj_lookup fastifySchema (template (cfg_method config) "/")
    else maybeSchema in
  maybeSchema.

(** [opts?.swaggerSecurityMap && opts.swaggerSecurityMap[key] &&
    { security: opts.swaggerSecurityMap[key] }]: an absent map stops the
    chain at [undefined], a map (an object, hence truthy) lets it go on. *)
Definition security_part (opts : options) (key : string) : value :=
  match swaggerSecurityMap opts with
  | None => VUndefined
  | Some m =>
      js_and (VObject m)
        (js_and (obj_lookup m key)
           (VObject [("security", obj_lookup m key)]))
  end.

Definition onRoute (fastify_prefix : string) (opts : options)
    (config : route_config) : res route_config :=
  if negb (cfg_prefix config =? fastify_prefix) then inr config
  else
    let key := template (cfg_method config) (cfg_routePath config) in
    let maybeSchema := maybeSchema opts config in
    let config := set_schema config (js_or (cfg_schema config) (VObject [])) in
    if truthy maybeSchema then
      match js_get maybeSchema "response" with
      | inl e => inl e
      | inr response =>
          inr (set_schema config
                 (VObject
                    (spread
                       (spread
                          (spread
                             (spread [] (js_coalesce (cfg_schema config) (VObject [])))
                             (security_part opts key))
                          (js_get_opt (js_get_opt maybeSchema "request") "properties"))
                       (js_and response (VObject [("response", response)])))))
      end
    else inr config.

(** The schema the route ends up with. *)
Definition resolved_schema (fastify_prefix : string) (opts : options)
    (config : route_config) : res value :=
  match onRoute fastify_prefix opts config with
  | inl e => inl e
  | inr config' => inr (cfg_schema config')
  end.

(** ** Calls into the Fastify instance *)

Inductive decoration : Type :=
| DecValue (v : value)
| DecPredicate (f : reply -> string -> bool)
| DecMethod (f : reply -> reply).

Inductive hook : Type :=
| OnRequestHook (h : request -> reply -> request * done_call)
| OnRouteHook (h : route_config -> res route_config).

Inductive call : Type :=
| Call_addSchema (schema : value)
| Call_decorateReply (name : string) (d : decoration)
| Call_decorateRequest (name : string) (d : decoration)
| Call_addHook (name : string) (h : hook)
| Call_route (routeOptions : obj).

Definition trace : Type := list call.

(** Statements of [addSchema]: they extend the trace of calls and either
    complete or throw; what was called before a [throw] stays called. *)
Definition M (A : Type) : Type := trace -> trace * res A.

Definition ret {A : Type} (a : A) : M A := fun t => (t, inr a).

Definition throw {A : Type} (e : exn) : M A := fun t => (t, inl e).

Definition bind {A B : Type} (m : M A) (k : A -> M B) : M B :=
  fun t =>
    match m t with
    | (t', inr a) => k a t'
    | (t', inl e) => (t', inl e)
    end.

Definition lift {A : Type} (r : res A) : M A := fun t => (t, r).

(** What the Fastify instance answers to a call, given the calls made into
    it so far: [None] when the call returns, [Some e] when it throws [e]. *)
Definition server_behaviour : Type := trace -> call -> option exn.

(** A call into the instance: it is recorded, and the statement completes
    or throws as the server decides. *)
Definition fastify (server : server_behaviour) (c : call) : M unit :=
  fun t => (t ++ [c],
            match server t c with
            | Some e => inl e
            | None => inr tt
            end).

Declare Scope js_scope.
Delimit Scope js_scope with js.
Notation "x <- m ;; k" := (bind m (fun x => k))
  (at level 61, m at next level, right associativity) : js_scope.
Notation "m ;; k" := (bind m (fun _ => k))
  (at level 61, right associativity) : js_scope.

(** [for (const x in ...) body] over the enumerated keys. *)
Fixpoint for_each (keys : list string) (body : string -> M unit) : M unit :=
  match keys with
  | [] => ret tt
  | k :: keys' => (body k ;; for_each keys' body)%js
  end.

(** ** Strings: [split(' ')] and [join(' ')] *)

Fixpoint split (sep : ascii) (s : string) : list string :=
  match s with
  | EmptyString => [""]
  | String c s' =>
      if (c =? sep)%char then "" :: split sep s'
      else match split sep s' with
           | piece :: pieces => String c piece :: pieces
           | [] => [String c ""]
           end
  end.

Definition join (sep : string) (pieces : list string) : string :=
  String.concat sep pieces.

(** [const [method, ...route] = path.split(' ')] *)
Definition destructure (pieces : list string) : value * list string :=
  match pieces with
  | [] => (VUndefined, [])
  | m :: route => (VString m, route)
  end.

(** [String(v)] at the values the destructuring yields. *)
Definition String_of (v : value) : string :=
  match v with
  | VString s => s
  | _ => "undefined"
  end.

(** ** Registration *)

Definition httpMethods : list string :=
  ["DELETE"; "GET"; "HEAD"; "PATCH"; "POST"; "PUT"; "OPTIONS"].

Definition httpMethods_has (m : string) : bool :=
  existsb (String.eqb m) httpMethods.

(** Keys visited by [for (const path in opts.service)]. *)
Definition for_in (s : service_object) : list string :=
  map fst (own s)
  ++ filter (fun k => negb (obj_has k (own s))) (map fst (inherited s)).

Definition hasOwnProperty (s : service_object) (k : string) : bool :=
  obj_has k (own s).

(** [opts.service[path]] *)
Definition service_get (s : service_object) (k : string) : value :=
  match obj_get k (own s) with
  | Some v => v
  | None => obj_lookup (inherited s) k
  end.

Definition missing_id_message : string :=
  "Schema was ignored, $id is missing; Typed fastify schema was not registered...".

Definition unknown_method_message (path method : string) : string :=
  "Wrong configuration for " ++ path ++ ", method [" ++ method
  ++ "] is unknown HTTP method".

Section Registration.

(** [String.prototype.toUpperCase]. *)
Variable toUpperCase : string -> string.

(** The Fastify instance [addSchema] is given. *)
Variable server : server_behaviour.

(** The body of the loop over the service declaration. *)
Definition register (s : service_object) (path : string) : M unit :=
  if negb (hasOwnProperty s path) then ret tt
  else
    let (method, route) := destructure (split " " path) in
    let httpMethod := toUpperCase (String_of method) in
    if negb (truthy method) || negb (httpMethods_has httpMethod) then
      throw (Error (unknown_method_message path (String_of method)))
    else
      let handler := service_get s path in
      if typeof handler =? "object" then
        (h <- lift (js_get handler "handler") ;;
         fastify server (Call_route
           (obj_set "url" (VString (join " " route))
              (obj_set "method" (VString httpMethod)
                 (obj_set "handler" h (spread [] handler))))))%js
      else if typeof handler =? "function" then
        fastify server (Call_route
          (obj_set "url" (VString (join " " route))
             (obj_set "handler" handler
                (obj_set "method" (VString httpMethod) []))))
      else throw (Error "Unknown handler").

Definition addSchema (fastify_prefix : string) (opts : options) : M unit :=
  (let schema := jsonSchema_schema opts in
   (if truthy (js_get_opt schema "$id")
    then fastify server (Call_addSchema schema)
    else throw (Error missing_id_message)) ;;
   fastify server (Call_decorateReply "matches" (DecPredicate matches)) ;;
   fastify server (Call_decorateRequest "operationPath" (DecValue VNull)) ;;
   fastify server (Call_addHook "onRequest" (OnRequestHook onRequest)) ;;
   fastify server (Call_decorateReply "asReply" (DecMethod asReply)) ;;
   fastify server (Call_addHook "onRoute" (OnRouteHook (onRoute fastify_prefix opts))) ;;
   for_each (for_in (service opts)) (register (service opts)))%js.

End Registration.

(** ** Notions used in the statements *)

Definition keys (o : obj) : list string := map fst o.

(** The property list stands for an object: no key occurs twice among the
    properties that a spread of [v] copies. *)
Definition unique_keys (v : value) : Prop := NoDup (keys (own_props v)).



(** The hook with a fragment in hand: the object literal it builds. *)
Definition merged_schema (opts : options) (config : route_config) : obj :=
  let key := template (cfg_method config) (cfg_routePath config) in
  let fragment := maybeSchema opts config in
  spread
    (spread
       (spread
          (spread [] (js_or (cfg_schema config) (VObject [])))
          (security_part opts key))
       (js_get_opt (js_get_opt fragment "request") "properties"))
    (js_and (get_own fragment "response")
       (VObject [("response", get_own fragment "response")])).

(** The calls [addSchema] makes before it walks the service declaration. *)
Definition setup_calls (fastify_prefix : string) (opts : options) : trace :=
  [ Call_addSchema (jsonSchema_schema opts);
    Call_decorateReply "matches" (DecPredicate matches);
    Call_decorateRequest "operationPath" (DecValue VNull);
    Call_addHook "onRequest" (OnRequestHook onRequest);
    Call_decorateReply "asReply" (DecMethod asReply);
    Call_addHook "onRoute" (OnRouteHook (onRoute fastify_prefix opts)) ].

(** The route options handed to [fastify.route], in call order. *)
Fixpoint routes_of (t : trace) : list obj :=
  match t with
  | [] => []
  | Call_route o :: t' => o :: routes_of t'
  | _ :: t' => routes_of t'
  end.

(** The server lets each of these calls return, one after the other, from
    the trace [t] on. *)
Fixpoint accepts (server : server_behaviour) (t : trace) (cs : list call)
    : Prop :=
  match cs with
  | [] => True
  | c :: cs' => server t c = None /\ accepts server (t ++ [c]) cs'
  end.

(** A sequence of calls into the server, up to the first that throws. *)
Fixpoint calls (server : server_behaviour) (cs : list call) : M unit :=
  match cs with
  | [] => ret tt
  | c :: cs' => (fastify server c ;; calls server cs')%js
  end.

Fixpoint no_space (s : string) : bool :=
  match s with
  | EmptyString => true
  | String c s' => negb (c =? " ")%char && no_space s'
  end.

(** The method token and the url of a key: the first piece, and the other
    pieces joined again. *)
Definition method_token (path : string) : string :=
  String_of (fst (destructure (split " " path))).

Definition url_of (path : string) : string :=
  join " " (snd (destructure (split " " path))).

(** A handler value the [switch] registers a route for. *)
Definition handler_ok (h : value) : bool :=
  (typeof h =? "function") || ((typeof h =? "object") && negb (nullish h)).

(** [needle] occurs in [hay]. *)
Fixpoint occurs_in (needle hay : string) : bool :=
  String.prefix needle hay
  || match hay with
     | EmptyString => false
     | String _ hay' => occurs_in needle hay'
     end.

(** [toUpperCase] on strings of ASCII code units, to run the examples. *)
Definition upper_ascii (c : ascii) : ascii :=
  let n := nat_of_ascii c in
  if ((97 <=? n)%nat && (n <=? 122)%nat)%bool then ascii_of_nat (n - 32) else c.

Fixpoint toUpperCase_ascii (s : string) : string :=
  match s with
  | EmptyString => EmptyString
  | String c s' => String (upper_ascii c) (toUpperCase_ascii s')
  end.

Section Accepted.

Variable toUpperCase : string -> string.

(** The method check of the loop passes for this key. *)
Definition method_ok (path : string) : bool :=
  negb (method_token path =? "")
  && httpMethods_has (toUpperCase (method_token path)).

(** The entry under this key is registered: known method, handler an object
    or a function. *)
Definition entry_ok (s : service_object) (path : string) : bool :=
  method_ok path && handler_ok (service_get s path).

(** A route registered for this key: its method is the upper-cased token,
    its url the rest of the key. *)
Definition registered_as (path : string) (routeOptions : obj) : Prop :=
  obj_get "method" routeOptions = Some (VString (toUpperCase (method_token path)))
  /\ obj_get "url" routeOptions = Some (VString (url_of path)).

(** The route options built in the two registering branches of the
    [switch]. *)
Definition object_route (path : string) (handler : value) : obj :=
  obj_set "url" (VString (url_of path))
    (obj_set "method" (VString (toUpperCase (method_token path)))
       (obj_set "handler" (get_own handler "handler") (spread [] handler))).

Definition function_route (path : string) (handler : value) : obj :=
  [ ("method", VString (toUpperCase (method_token path)));
    ("handler", handler);
    ("url", VString (url_of path)) ].

(** The route options built for an accepted entry. *)
Definition entry_route (s : service_object) (path : string) : obj :=
  if typeof (service_get s path) =? "object"
  then object_route path (service_get s path)
  else function_route path (service_get s path).

End Accepted.

(** ** Inputs for the examples *)

Definition api_schema : value := VObject [("$id", VString "api")].

Definition string_schema : value := VObject [("type", VString "string")].

(** A fragment with a response map only. *)
Definition root_fragment : value :=
  VObject [("response", VObject [("200", string_schema)])].

Definition root_table : obj := [("GET /", root_fragment)].

Definition bearer : value := VArray [VObject [("bearerAuth", VArray [])]].

Definition root_security : obj := [("GET /", bearer)].

Definition no_routes : service_object := mkService [] [].

(** A server that lets every call return. *)
Definition quiet_server : server_behaviour := fun _ _ => None.

(** A schema table and a security map that both describe the root route
    under its key "GET /". *)
Definition opts_root : options :=
  mkOptions api_schema root_table (Some root_security) no_routes.

(** A valid entry followed by one with an unknown method. *)
Definition opts_bad_method : options :=
  mkOptions api_schema [] None
    (mkService [("GET /a", VFunction 0); ("FOO /bad", VFunction 1)] []).

Definition opts_null_entry : options :=
  mkOptions api_schema [] None (mkService [("GET /", VNull)] []).

Definition opts_no_id : options :=
  mkOptions (VObject []) [] None (mkService [("GET /users", VFunction 0)] []).

Definition opts_spaced_path : options :=
  mkOptions api_schema [] None
    (mkService [("get /files/my report.txt", VFunction 0)] []).

(** The same table with a security map that only covers another route. *)
Definition opts_root_plain : options :=
  mkOptions api_schema root_table (Some [("GET /users", bearer)]) no_routes.

Definition summary_schema : value := VObject [("summary", VString "root")].

(** ** The exported [asReply]

    [assertAsReply] is an assertion function with an empty body; the
    exported [asReply] calls it and returns its argument. *)

Module Exported.

Definition assertAsReply (any : value) : unit := tt.

Definition asReply (any : value) : value :=
  let _ := assertAsReply any in any.

End Exported.

(** ** Notions used in the further statements *)

(** What every route handed to [fastify.route] carries: one of the seven
    verbs as [method], a string as [url], and a [handler] property. *)
Definition route_well_formed (routeOptions : obj) : Prop :=
  (exists m, obj_get "method" routeOptions = Some (VString m)
             /\ In m httpMethods)
  /\ (exists u, obj_get "url" routeOptions = Some (VString u))
  /\ obj_has "handler" routeOptions = true.

(** What the [switch] throws for a handler it does not register. *)
Definition bad_handler_error (handler : value) : exn :=
  if typeof handler =? "object" then TypeError "handler"
  else Error "Unknown handler".

(** Array-index keys come first, in ascending order, then the other keys. *)
Definition key_le (k k' : string) : Prop :=
  match array_index k, array_index k' with
  | Some n, Some n' => (n <= n')%N
  | Some _, None => True
  | None, Some _ => False
  | None, None => True
  end.

(** Two valid entries, the second an object with route options. *)
Definition opts_two_routes : options :=
  mkOptions api_schema [] None
    (mkService
       [("GET /a", VFunction 0);
        ("post /login",
         VObject [("url", VString "/ignored"); ("bodyLimit", VString "1kb");
                  ("handler", VFunction 7)])]
       [("FOO /inherited", VFunction 9)]).

(** A valid entry followed by one whose handler is a string. *)
Definition opts_bad_handler : options :=
  mkOptions api_schema [] None
    (mkService [("GET /a", VFunction 0); ("GET /b", VString "handler")] []).

(** The exceptions [addSchema] can end with, for a given declaration. *)
Definition addSchema_error (s : service_object) (e : exn) : Prop :=
  e = Error missing_id_message
  \/ (exists path, In path (keys (own s))
                   /\ e = Error (unknown_method_message path (method_token path)))
  \/ e = TypeError "handler"
  \/ e = Error "Unknown handler".

(** A server that, as Fastify does, refuses a route whose [handler] is not
    a function, and lets every other call return. *)
Definition strict_server : server_behaviour :=
  fun _ c =>
    match c with
    | Call_route o =>
        match obj_get "handler" o with
        | Some (VFunction _) => None
        | _ => Some (Error "FST_ERR_ROUTE_MISSING_HANDLER")
        end
    | _ => None
    end.

(** An object entry without a [handler] between two valid entries. *)
Definition opts_missing_handler : options :=
  mkOptions api_schema [] None
    (mkService
       [("GET /a", VFunction 0);
        ("GET /x", VObject [("bodyLimit", VString "1kb")]);
        ("GET /z", VFunction 2)]
       []).

(** A declaration with the empty string as a key. *)
Definition opts_empty_key : options :=
  mkOptions api_schema [] None (mkService [("", VFunction 0)] []).

(** * Properties *)

(** ** Objects *)

Lemma obj_get_app (k : string) (o1 o2 : obj) :
  obj_get k (o1 ++ o2) =
  match obj_get k o1 with Some v => Some v | None => obj_get k o2 end.
Proof.
  induction o1 as [|[k1 v1] o1 IH]; simpl; [reflexivity|].
  destruct (k1 =? k); [reflexivity | exact IH].
Qed.

Lemma obj_get_update (k k' : string) (v : value) (o : obj) :
  obj_get k' (obj_update k v o) =
  if k =? k' then (if obj_has k o then Some v else None) else obj_get k' o.
Proof.
  unfold obj_has.
  induction o as [|[k1 v1] o IH]; simpl.
  - destruct (k =? k'); reflexivity.
  - destruct (String.eqb_spec k1 k) as [->|Hk1]; simpl.
    + destruct (k =? k'); reflexivity.
    + rewrite IH. destruct (String.eqb_spec k k') as [<-|Hk].
      * apply String.eqb_neq in Hk1. rewrite Hk1. reflexivity.
      * reflexivity.
Qed.

Lemma obj_get_insert_index (n : N) (k k' : string) (v : value) (o : obj) :
  obj_has k o = false ->
  obj_get k' (obj_insert_index n k v o) =
  if k =? k' then Some v else obj_get k' o.
Proof.
  unfold obj_has.
  induction o as [|[k1 v1] o IH]; simpl; intros Hno.
  - reflexivity.
  - destruct (String.eqb_spec k1 k) as [->|Hk1]; [discriminate|].
    destruct (array_index k1) as [n1|]; [destruct (n <? n1)%N|]; simpl;
      try reflexivity.
    rewrite (IH Hno).
    destruct (String.eqb_spec k k') as [<-|Hk]; [|reflexivity].
    apply String.eqb_neq in Hk1. rewrite Hk1. reflexivity.
Qed.

(** Reading back after CreateDataProperty. *)
Lemma obj_get_set (k k' : string) (v : value) (o : obj) :
  obj_get k' (obj_set k v o) = if k =? k' then Some v else obj_get k' o.
Proof.
  unfold obj_set. destruct (obj_has k o) eqn:Hhas.
  - rewrite obj_get_update, Hhas. reflexivity.
  - destruct (array_index k) as [n|].
    + apply obj_get_insert_index; exact Hhas.
    + rewrite obj_get_app. simpl.
      unfold obj_has in Hhas.
      destruct (String.eqb_spec k k') as [<-|Hk].
      * destruct (obj_get k o); [discriminate | reflexivity].
      * destruct (obj_get k' o); reflexivity.
Qed.

Lemma obj_get_not_in (k : string) (o : obj) :
  ~ In k (keys o) -> obj_get k o = None.
Proof.
  induction o as [|[k1 v1] o IH]; simpl; intros Hn; [reflexivity|].
  destruct (String.eqb_spec k1 k) as [->|_].
  - exfalso. apply Hn. left. reflexivity.
  - apply IH. intros Hin. apply Hn. right. exact Hin.
Qed.

Lemma obj_get_fold_set (k : string) (src target : obj) :
  NoDup (keys src) ->
  obj_get k (fold_left (fun acc kv => obj_set (fst kv) (snd kv) acc) src target) =
  match obj_get k src with Some v => Some v | None => obj_get k target end.
Proof.
  revert target.
  induction src as [|[k1 v1] src IH]; simpl; intros target Hnd; [reflexivity|].
  inversion Hnd as [|? ? Hnotin Hnd']; subst.
  rewrite (IH _ Hnd'), obj_get_set.
  destruct (String.eqb_spec k1 k) as [->|_]; [|reflexivity].
  rewrite (obj_get_not_in _ _ Hnotin). reflexivity.
Qed.

(** Reading a key of [{...target, ...src}]: the property of [src] when it
    has one, that of [target] otherwise. *)
Lemma obj_get_spread (k : string) (target : obj) (src : value) :
  NoDup (keys (own_props src)) ->
  obj_get k (spread target src) =
  match obj_get k (own_props src) with
  | Some v => Some v
  | None => obj_get k target
  end.
Proof. intros Hnd. unfold spread. apply obj_get_fold_set. exact Hnd. Qed.

(** The index keys of an array or a string are pairwise distinct, so only
    a property list given for an object can break [unique_keys]. *)
Lemma index_key_inj (i j : nat) : index_key i = index_key j -> i = j.
Proof.
  unfold index_key. intros H.
  apply (f_equal NilEmpty.uint_of_string) in H.
  rewrite !NilEmpty.usu in H. injection H as H.
  apply Unsigned.to_uint_inj. exact H.
Qed.

Lemma keys_indexed {A : Type} (f : A -> value) (l : list A) (i : nat) (k : string) :
  In k (keys (indexed f i l)) -> exists j, i <= j /\ k = index_key j.
Proof.
  revert i. induction l as [|x l IH]; simpl; intros i Hin; [contradiction|].
  destruct Hin as [<-|Hin].
  - exists i. split; [lia | reflexivity].
  - destruct (IH _ Hin) as [j [Hj ->]]. exists j. split; [lia | reflexivity].
Qed.

Lemma NoDup_indexed {A : Type} (f : A -> value) (l : list A) (i : nat) :
  NoDup (keys (indexed f i l)).
Proof.
  revert i. induction l as [|x l IH]; simpl; intros i; constructor.
  - intros Hin. destruct (keys_indexed _ _ _ _ Hin) as [j [Hj Heq]].
    apply index_key_inj in Heq. lia.
  - apply IH.
Qed.

Lemma unique_keys_not_object (v : value) :
  (forall o, v <> VObject o) -> unique_keys v.
Proof.
  intros Hv. unfold unique_keys.
  destruct v; simpl; try constructor; try apply NoDup_indexed.
  exfalso. exact (Hv _ eq_refl).
Qed.

(** ** The [onRoute] hook *)

Lemma truthy_not_nullish (v : value) : truthy v = true -> nullish v = false.
Proof. destruct v; simpl; intros H; try reflexivity; discriminate. Qed.

Lemma set_schema_same (config : route_config) :
  set_schema config (cfg_schema config) = config.
Proof. destruct config; reflexivity. Qed.

Lemma js_or_truthy (a b : value) : truthy a = true -> js_or a b = a.
Proof. intros H. unfold js_or. rewrite H. reflexivity. Qed.

Lemma js_or_object_truthy (a : value) : truthy (js_or a (VObject [])) = true.
Proof. unfold js_or. destruct (truthy a) eqn:H; [exact H | reflexivity]. Qed.

Lemma js_coalesce_truthy (a b : value) : truthy a = true -> js_coalesce a b = a.
Proof.
  intros H. unfold js_coalesce. rewrite (truthy_not_nullish _ H). reflexivity.
Qed.

Lemma onRoute_hit (fastify_prefix : string) (opts : options)
    (config : route_config) :
  cfg_prefix config = fastify_prefix ->
  truthy (maybeSchema opts config) = true ->
  onRoute fastify_prefix opts config =
  inr (set_schema config (VObject (merged_schema opts config))).
Proof.
  intros Hp Ht. unfold onRoute.
  rewrite Hp, String.eqb_refl. simpl negb. cbv iota.
  change (maybeSchema opts (set_schema config _)) with (maybeSchema opts config).
  rewrite Ht. unfold js_get. rewrite (truthy_not_nullish _ Ht).
  simpl cfg_schema.
  rewrite (js_coalesce_truthy _ _ (js_or_object_truthy _)).
  reflexivity.
Qed.

Lemma onRoute_miss (fastify_prefix : string) (opts : options)
    (config : route_config) :
  truthy (maybeSchema opts config) = false ->
  onRoute fastify_prefix opts config =
  inr (if cfg_prefix config =? fastify_prefix
       then set_schema config (js_or (cfg_schema config) (VObject []))
       else config).
Proof.
  intros Ht. unfold onRoute.
  destruct (cfg_prefix config =? fastify_prefix); simpl; [|reflexivity].
  rewrite Ht. reflexivity.
Qed.

(** The hook has no failure mode. *)
Lemma onRoute_total (fastify_prefix : string) (opts : options)
    (config : route_config) :
  exists config', onRoute fastify_prefix opts config = inr config'.
Proof.
  destruct (truthy (maybeSchema opts config)) eqn:Ht.
  - destruct (String.eqb_spec (cfg_prefix config) fastify_prefix) as [Hp|Hp].
    + eexists. apply onRoute_hit; assumption.
    + exists config. unfold onRoute.
      apply String.eqb_neq in Hp. rewrite Hp. reflexivity.
  - eexists. apply onRoute_miss. exact Ht.
Qed.

Lemma own_props_falsy (v : value) : truthy v = false -> own_props v = [].
Proof.
  destruct v; simpl; intros H; try reflexivity; try discriminate.
  apply negb_false_iff, String.eqb_eq in H. subst. reflexivity.
Qed.






(** C5 - A route declared with an explicit schema for which no fragment is
    found, root-path retries included, leaves the hook exactly as it entered
    it: the hook does not fail and the schema is the declared one. *)
Theorem onRoute_lookup_miss_keeps_schema (fastify_prefix : string)
    (opts : options) (config : route_config) :
  truthy (cfg_schema config) = true ->
  truthy (maybeSchema opts config) = false ->
  onRoute fastify_prefix opts config = inr config
  /\ resolved_schema fastify_prefix opts config = inr (cfg_schema config).
Proof.
  intros Hs Hm.
  assert (H : onRoute fastify_prefix opts config = inr config).
  { rewrite (onRoute_miss _ _ _ Hm), (js_or_truthy _ _ Hs), set_schema_same.
    destruct (cfg_prefix config =? fastify_prefix); reflexivity. }
  split; [exact H|]. unfold resolved_schema. rewrite H. reflexivity.
Qed.

(** ** Root-path spellings *)

Lemma maybeSchema_slash (opts : options) (prefix method : string) (schema : value) :
  maybeSchema opts (mkConfig prefix method "/" schema) =
  obj_lookup (jsonSchema_fastify opts) (template method "/").
Proof.
  unfold maybeSchema. simpl.
  rewrite andb_false_r, andb_true_r.
  destruct (negb (truthy (obj_lookup (jsonSchema_fastify opts) (template method "/"))));
    reflexivity.
Qed.

Lemma maybeSchema_empty (opts : options) (prefix method : string) (schema : value) :
  maybeSchema opts (mkConfig prefix method "" schema) =
  if truthy (obj_lookup (jsonSchema_fastify opts) (template method ""))
  then obj_lookup (jsonSchema_fastify opts) (template method "")
  else obj_lookup (jsonSchema_fastify opts) (template method "/").
Proof.
  unfold maybeSchema. simpl.
  rewrite andb_true_r, andb_false_r.
  destruct (truthy (obj_lookup (jsonSchema_fastify opts) (template method "")));
    reflexivity.
Qed.

Lemma security_part_agree (opts : options) (key1 key2 : string) :
  (forall m, swaggerSecurityMap opts = Some m ->
             obj_lookup m key1 = obj_lookup m key2) ->
  security_part opts key1 = security_part opts key2.
Proof.
  intros H. unfold security_part.
  destruct (swaggerSecurityMap opts) as [m|]; [|reflexivity].
  rewrite (H m eq_refl). reflexivity.
Qed.

(** Where the two root spellings do resolve alike: when the schema table
    has no truthy fragment under "<method> " and the security map, if any,
    holds the same entry under "<method> " and "<method> /", registering the
    root as "" and as "/" resolves to one and the same schema, and
    resolution does not fail. *)
Theorem root_spellings_resolve_alike (fastify_prefix : string) (opts : options)
    (prefix method : string) (schema : value) :
  truthy (obj_lookup (jsonSchema_fastify opts) (template method "")) = false ->
  (forall m, swaggerSecurityMap opts = Some m ->
             obj_lookup m (template method "") = obj_lookup m (template method "/")) ->
  exists resolved : value,
    resolved_schema fastify_prefix opts (mkConfig prefix method "" schema)
      = inr resolved
    /\ resolved_schema fastify_prefix opts (mkConfig prefix method "/" schema)
      = inr resolved.
Proof.
  intros Htable Hsec.
  assert (Hfrag : maybeSchema opts (mkConfig prefix method "" schema)
                  = maybeSchema opts (mkConfig prefix method "/" schema)).
  { rewrite maybeSchema_empty, maybeSchema_slash, Htable. reflexivity. }
  unfold resolved_schema.
  destruct (truthy (maybeSchema opts (mkConfig prefix method "/" schema))) eqn:Ht.
  - destruct (String.eqb_spec prefix fastify_prefix) as [Hp|Hp].
    + rewrite (onRoute_hit fastify_prefix opts (mkConfig prefix method "/" schema) Hp Ht).
      rewrite <- Hfrag in Ht.
      rewrite (onRoute_hit fastify_prefix opts (mkConfig prefix method "" schema) Hp Ht).
      eexists. split; [|reflexivity]. simpl.
      unfold merged_schema. rewrite Hfrag. simpl cfg_schema. simpl cfg_method.
      simpl cfg_routePath.
      rewrite (security_part_agree _ _ _ Hsec). reflexivity.
    + apply String.eqb_neq in Hp. unfold onRoute. simpl. rewrite Hp. simpl.
      exists schema. split; reflexivity.
  - rewrite (onRoute_miss fastify_prefix opts (mkConfig prefix method "/" schema) Ht).
    rewrite <- Hfrag in Ht.
    rewrite (onRoute_miss fastify_prefix opts (mkConfig prefix method "" schema) Ht).
    simpl. destruct (prefix =? fastify_prefix); eexists; split; reflexivity.
Qed.

(** ** [matches] and the [onRequest] hook *)

(** C6 - [matches] is a total function of the reply and the label, true
    exactly when the label is the method of the request in hand, one space,
    and its routerPath; on any other label it is false. *)
Theorem matches_iff (this : reply) (label : string) :
  (matches this label = true <->
   label = (req_method (reply_request this) ++ " "
            ++ req_routerPath (reply_request this))%string)
  /\ (matches this label = false <->
      label <> (req_method (reply_request this) ++ " "
                ++ req_routerPath (reply_request this))%string).
Proof.
  unfold matches, template. split.
  - rewrite String.eqb_eq. split; intros H; symmetry; exact H.
  - rewrite String.eqb_neq. split; intros H Heq; apply H; symmetry; exact Heq.
Qed.

(** ** Splitting route keys *)

Lemma split_not_nil (s : string) : split " " s <> [].
Proof.
  destruct s as [|c s]; simpl; [discriminate|].
  destruct (c =? " ")%char; [discriminate|].
  destruct (split " " s); discriminate.
Qed.

Lemma split_token (m rest : string) :
  no_space m = true ->
  split " " (m ++ " " ++ rest) = m :: split " " rest.
Proof.
  change (" " ++ rest)%string with (String " " rest).
  induction m as [|c m IH]; simpl; intros Hm; [reflexivity|].
  apply andb_true_iff in Hm. destruct Hm as [Hc Hm].
  apply negb_true_iff in Hc. rewrite Hc, (IH Hm). reflexivity.
Qed.

Lemma split_no_space (s : string) : no_space s = true -> split " " s = [s].
Proof.
  induction s as [|c s IH]; simpl; intros Hs; [reflexivity|].
  apply andb_true_iff in Hs. destruct Hs as [Hc Hs].
  apply negb_true_iff in Hc. rewrite Hc, (IH Hs). reflexivity.
Qed.

Lemma join_cons (c : ascii) (piece : string) (pieces : list string) :
  join " " (String c piece :: pieces) = String c (join " " (piece :: pieces)).
Proof. unfold join. simpl. destruct pieces; reflexivity. Qed.

(** [s.split(' ').join(' ')] is [s]. *)
Lemma join_split (s : string) : join " " (split " " s) = s.
Proof.
  induction s as [|c s IH]; [reflexivity|]. simpl.
  destruct (Ascii.eqb_spec c " ") as [->|_].
  - pose proof (split_not_nil s) as Hne.
    destruct (split " " s) as [|piece pieces] eqn:Hs; [contradiction|].
    unfold join in *. simpl in *. rewrite IH. reflexivity.
  - pose proof (split_not_nil s) as Hne.
    destruct (split " " s) as [|piece pieces] eqn:Hs; [contradiction|].
    rewrite join_cons, IH. reflexivity.
Qed.

Lemma method_token_app (m rest : string) :
  no_space m = true -> method_token (m ++ " " ++ rest) = m.
Proof.
  intros Hm. unfold method_token. rewrite (split_token _ _ Hm). reflexivity.
Qed.

Lemma url_of_app (m rest : string) :
  no_space m = true -> url_of (m ++ " " ++ rest) = rest.
Proof.
  intros Hm. unfold url_of. rewrite (split_token _ _ Hm). simpl.
  apply join_split.
Qed.

Lemma url_of_no_space (path : string) :
  no_space path = true -> method_token path = path /\ url_of path = "".
Proof.
  intros Hp. unfold method_token, url_of. rewrite (split_no_space _ Hp).
  split; reflexivity.
Qed.

(** Every key is either free of spaces or a token, a space and a rest. *)
Lemma key_decomposition (path : string) :
  no_space path = true
  \/ exists m rest, path = template m rest /\ no_space m = true.
Proof.
  induction path as [|c path IH]; [left; reflexivity|].
  destruct (Ascii.eqb_spec c " ") as [->|Hc].
  - right. exists "", path. split; reflexivity.
  - apply Ascii.eqb_neq in Hc. destruct IH as [Hp|[m [rest [-> Hm]]]].
    + left. simpl. rewrite Hc, Hp. reflexivity.
    + right. exists (String c m), rest. split; [reflexivity|].
      simpl. rewrite Hc, Hm. reflexivity.
Qed.

(** The two pieces the loop works with determine the key. *)
Lemma key_shape (path : string) :
  no_space (method_token path) = true
  /\ (path = template (method_token path) (url_of path)
      \/ (no_space path = true /\ path = method_token path /\ url_of path = "")).
Proof.
  destruct (key_decomposition path) as [Hp|[m [rest [-> Hm]]]].
  - destruct (url_of_no_space _ Hp) as [Htok Hurl].
    rewrite Htok. split; [exact Hp|]. right. repeat split; assumption.
  - unfold template.
    rewrite (method_token_app _ _ Hm), (url_of_app _ _ Hm).
    split; [exact Hm|]. left. reflexivity.
Qed.

Lemma destructure_split (path : string) :
  destructure (split " " path)
  = (VString (method_token path), snd (destructure (split " " path))).
Proof.
  unfold method_token. pose proof (split_not_nil path) as Hne.
  destruct (split " " path); [contradiction | reflexivity].
Qed.

(** ** Calls into the server *)

Section ServerCalls.

Variable server : server_behaviour.

Lemma fastify_returns (c : call) (t : trace) :
  server t c = None -> fastify server c t = (t ++ [c], inr tt).
Proof. intros H. unfold fastify. rewrite H. reflexivity. Qed.

Lemma accepts_app (t : trace) (l1 l2 : list call) :
  accepts server t (l1 ++ l2)
  <-> accepts server t l1 /\ accepts server (t ++ l1) l2.
Proof.
  revert t. induction l1 as [|c l1 IH]; intros t; simpl.
  - rewrite app_nil_r. tauto.
  - rewrite IH, <- app_assoc. simpl. tauto.
Qed.

Lemma calls_bind_cons {B : Type} (c : call) (cs : list call)
    (k : unit -> M B) (t : trace) :
  bind (calls server (c :: cs)) k t
  = match server t c with
    | Some e => (t ++ [c], inl e)
    | None => bind (calls server cs) k (t ++ [c])
    end.
Proof. simpl. unfold bind, fastify. destruct (server t c); reflexivity. Qed.

(** A sequence of calls followed by a continuation: either every call
    returns and the continuation runs on the extended trace, or the first
    call that throws ends the run, the calls before it having returned. *)
Lemma calls_bind_cases {B : Type} (cs : list call) (k : unit -> M B)
    (t : trace) :
  (accepts server t cs /\ bind (calls server cs) k t = k tt (t ++ cs))
  \/ (exists l1 c l2 e,
        cs = l1 ++ c :: l2 /\ accepts server t l1
        /\ server (t ++ l1) c = Some e
        /\ bind (calls server cs) k t = (t ++ l1 ++ [c], inl e)).
Proof.
  revert t. induction cs as [|c cs IH]; intros t.
  - left. split; [exact I|]. rewrite app_nil_r. reflexivity.
  - rewrite calls_bind_cons. destruct (server t c) as [e|] eqn:Hc.
    + right. exists [], c, cs, e. simpl. rewrite app_nil_r.
      repeat split. exact Hc.
    + destruct (IH (t ++ [c])) as [[Hacc Hrun]|[l1 [c' [l2 [e [-> [Hacc [Hc' Hrun]]]]]]]].
      * left. split; [split; assumption|].
        rewrite Hrun, <- app_assoc. reflexivity.
      * right. exists (c :: l1), c', l2, e. rewrite <- app_assoc in Hc', Hrun.
        repeat split; assumption.
Qed.

Lemma calls_bind_accepts {B : Type} (cs : list call) (k : unit -> M B)
    (t : trace) :
  accepts server t cs -> bind (calls server cs) k t = k tt (t ++ cs).
Proof.
  revert t. induction cs as [|c cs IH]; intros t Hacc.
  - rewrite app_nil_r. reflexivity.
  - destruct Hacc as [Hc Hacc]. rewrite calls_bind_cons, Hc, (IH _ Hacc).
    rewrite <- app_assoc. reflexivity.
Qed.

Lemma calls_bind_extends {B : Type} (cs : list call) (k : unit -> M B) :
  (forall t0, exists t', fst (k tt t0) = t0 ++ t') ->
  forall t, exists t', fst (bind (calls server cs) k t) = t ++ t'.
Proof.
  intros Hk t.
  destruct (calls_bind_cases cs k t)
    as [[_ Hrun]|[l1 [c [l2 [e [_ [_ [_ Hrun]]]]]]]]; rewrite Hrun.
  - destruct (Hk (t ++ cs)) as [t' Ht']. exists (cs ++ t').
    rewrite Ht', app_assoc. reflexivity.
  - exists (l1 ++ [c]). reflexivity.
Qed.

Lemma bind_ext {A B : Type} (m : M A) (k1 k2 : A -> M B) (t : trace) :
  (forall a t0, k1 a t0 = k2 a t0) -> bind m k1 t = bind m k2 t.
Proof.
  intros Hk. unfold bind. destruct (m t) as [t' [e|a]]; [reflexivity|apply Hk].
Qed.

Lemma trace_grows (t : trace) (c : call) : t ++ [c] <> t.
Proof.
  intros H. apply (f_equal (@List.length call)) in H.
  rewrite length_app in H. simpl in H. lia.
Qed.

End ServerCalls.

(** ** The registration loop *)

Section RegistrationProperties.

Variable toUpperCase : string -> string.
Variable server : server_behaviour.

Local Abbreviation register' := (register toUpperCase server).
Local Abbreviation addSchema' := (addSchema toUpperCase server).
Local Abbreviation method_ok' := (method_ok toUpperCase).
Local Abbreviation entry_ok' := (entry_ok toUpperCase).
Local Abbreviation registered_as' := (registered_as toUpperCase).
Local Abbreviation object_route' := (object_route toUpperCase).
Local Abbreviation function_route' := (function_route toUpperCase).
Local Abbreviation entry_route' := (entry_route toUpperCase).

Lemma register_inherited (s : service_object) (path : string) (t : trace) :
  hasOwnProperty s path = false -> register' s path t = (t, inr tt).
Proof. intros Hown. unfold register. rewrite Hown. reflexivity. Qed.

(** Past the own-property test and the destructuring, the body of the loop
    is a test of the method followed by the [switch]. *)
Lemma register_own (s : service_object) (path : string) :
  hasOwnProperty s path = true ->
  register' s path =
  if method_ok' path then
    if typeof (service_get s path) =? "object" then
      (h <- lift (js_get (service_get s path) "handler") ;;
       fastify server (Call_route
         (obj_set "url" (VString (url_of path))
            (obj_set "method" (VString (toUpperCase (method_token path)))
               (obj_set "handler" h (spread [] (service_get s path)))))))%js
    else if typeof (service_get s path) =? "function" then
      fastify server (Call_route (function_route' path (service_get s path)))
    else throw (Error "Unknown handler")
  else throw (Error (unknown_method_message path (method_token path))).
Proof.
  intros Hown. unfold register, method_ok.
  rewrite Hown, destructure_split. simpl negb at 1. cbv iota beta.
  simpl String_of. simpl truthy.
  rewrite <- negb_andb.
  destruct (negb (method_token path =? "")
            && httpMethods_has (toUpperCase (method_token path)));
    reflexivity.
Qed.

Lemma register_bad_method (s : service_object) (path : string) (t : trace) :
  hasOwnProperty s path = true ->
  method_ok' path = false ->
  register' s path t
  = (t, inl (Error (unknown_method_message path (method_token path)))).
Proof. intros Hown Hbad. rewrite (register_own _ _ Hown), Hbad. reflexivity. Qed.

Lemma register_function (s : service_object) (path : string) (t : trace) :
  hasOwnProperty s path = true ->
  method_ok' path = true ->
  typeof (service_get s path) = "function" ->
  register' s path t
  = fastify server (Call_route (function_route' path (service_get s path))) t.
Proof.
  intros Hown Hok Hty. rewrite (register_own _ _ Hown), Hok, Hty. reflexivity.
Qed.

Lemma register_object (s : service_object) (path : string) (t : trace) :
  hasOwnProperty s path = true ->
  method_ok' path = true ->
  typeof (service_get s path) = "object" ->
  nullish (service_get s path) = false ->
  register' s path t
  = fastify server (Call_route (object_route' path (service_get s path))) t.
Proof.
  intros Hown Hok Hty Hnn. rewrite (register_own _ _ Hown), Hok, Hty.
  simpl. unfold bind, lift, js_get. rewrite Hnn. reflexivity.
Qed.

Lemma register_null (s : service_object) (path : string) (t : trace) :
  hasOwnProperty s path = true ->
  method_ok' path = true ->
  service_get s path = VNull ->
  register' s path t = (t, inl (TypeError "handler")).
Proof.
  intros Hown Hok Hnull. rewrite (register_own _ _ Hown), Hok, Hnull.
  reflexivity.
Qed.

Lemma register_unknown_handler (s : service_object) (path : string) (t : trace) :
  hasOwnProperty s path = true ->
  method_ok' path = true ->
  typeof (service_get s path) <> "object" ->
  typeof (service_get s path) <> "function" ->
  register' s path t = (t, inl (Error "Unknown handler")).
Proof.
  intros Hown Hok Hobj Hfun. rewrite (register_own _ _ Hown), Hok.
  apply String.eqb_neq in Hobj, Hfun. rewrite Hobj, Hfun. reflexivity.
Qed.

Lemma handler_ok_cases (h : value) :
  handler_ok h = true ->
  typeof h = "function" \/ (typeof h = "object" /\ nullish h = false).
Proof.
  unfold handler_ok. intros H. apply orb_true_iff in H. destruct H as [H|H].
  - left. apply String.eqb_eq. exact H.
  - right. apply andb_true_iff in H. destruct H as [H1 H2].
    split; [apply String.eqb_eq; exact H1 | apply negb_true_iff; exact H2].
Qed.

Lemma entry_route_registered (s : service_object) (path : string) :
  entry_ok' s path = true ->
  registered_as' path (entry_route' s path).
Proof.
  intros Hok. unfold entry_ok in Hok.
  apply andb_true_iff in Hok. destruct Hok as [_ Hh].
  unfold entry_route.
  destruct (handler_ok_cases _ Hh) as [Hf|[Ho _]].
  - rewrite Hf. simpl. split; reflexivity.
  - rewrite Ho. simpl. unfold registered_as, object_route.
    rewrite !obj_get_set. split; reflexivity.
Qed.

(** An accepted entry makes exactly one call, [fastify.route], with the
    upper-cased token as method and the rest of the key as url; the body
    ends as that call does. *)
Lemma register_accepted (s : service_object) (path : string) :
  hasOwnProperty s path = true ->
  entry_ok' s path = true ->
  registered_as' path (entry_route' s path)
  /\ forall t, register' s path t
               = fastify server (Call_route (entry_route' s path)) t.
Proof.
  intros Hown Hok. split; [apply entry_route_registered; exact Hok|].
  unfold entry_ok in Hok.
  apply andb_true_iff in Hok. destruct Hok as [Hm Hh].
  unfold entry_route.
  destruct (handler_ok_cases _ Hh) as [Hf|[Ho Hnn]].
  - rewrite Hf. simpl. intros t. apply register_function; assumption.
  - rewrite Ho. simpl. intros t. apply register_object; assumption.
Qed.

Lemma obj_has_in (k : string) (o : obj) :
  In k (keys o) -> obj_has k o = true.
Proof.
  unfold obj_has.
  induction o as [|[k1 v1] o IH]; simpl; intros Hin; [contradiction|].
  destruct (String.eqb_spec k1 k) as [_|Hne]; [reflexivity|].
  destruct Hin as [Heq|Hin]; [contradiction | exact (IH Hin)].
Qed.

Lemma accepted_routes (s : service_object) (paths : list string) :
  Forall (fun path => entry_ok' s path = true) paths ->
  Forall2 registered_as' paths (map (entry_route' s) paths).
Proof.
  induction 1 as [|path paths Hok _ IH]; simpl; constructor;
    [apply entry_route_registered; exact Hok | exact IH].
Qed.

(** While the server lets the routes in, the loop over accepted entries
    hands them over one by one. *)
Lemma for_each_routes (s : service_object) (paths : list string) :
  Forall (fun path => hasOwnProperty s path = true) paths ->
  Forall (fun path => entry_ok' s path = true) paths ->
  forall t,
    accepts server t (map Call_route (map (entry_route' s) paths)) ->
    for_each paths (register' s) t
    = (t ++ map Call_route (map (entry_route' s) paths), inr tt).
Proof.
  induction paths as [|path paths IH]; intros Hown Hok t Hacc; simpl.
  - rewrite app_nil_r. reflexivity.
  - inversion Hown as [|? ? Hown1 Hown']; subst.
    inversion Hok as [|? ? Hok1 Hok']; subst.
    simpl in Hacc. destruct Hacc as [Hc Hacc].
    destruct (register_accepted s path Hown1 Hok1) as [_ Hrun].
    unfold bind. rewrite Hrun, (fastify_returns _ _ _ Hc).
    rewrite (IH Hown' Hok' _ Hacc), <- app_assoc. reflexivity.
Qed.

(** The loop stops at the first body that throws: what the earlier bodies
    called stays in the trace, the later keys are not visited. *)
Lemma for_each_abort (s : service_object) (before : list string)
    (path : string) (after : list string) (e : exn) :
  Forall (fun p => hasOwnProperty s p = true) before ->
  Forall (fun p => entry_ok' s p = true) before ->
  (forall t, register' s path t = (t, inl e)) ->
  forall t,
    accepts server t (map Call_route (map (entry_route' s) before)) ->
    for_each (before ++ path :: after) (register' s) t
    = (t ++ map Call_route (map (entry_route' s) before), inl e).
Proof.
  intros Hown Hok Hthrow.
  induction before as [|p before IH]; intros t Hacc; simpl.
  - unfold bind. rewrite Hthrow, app_nil_r. reflexivity.
  - inversion Hown as [|? ? Hown1 Hown']; subst.
    inversion Hok as [|? ? Hok1 Hok']; subst.
    simpl in Hacc. destruct Hacc as [Hc Hacc].
    destruct (register_accepted s p Hown1 Hok1) as [_ Hrun].
    unfold bind. rewrite Hrun, (fastify_returns _ _ _ Hc).
    rewrite (IH Hown' Hok' _ Hacc), <- app_assoc. reflexivity.
Qed.

Lemma addSchema_missing_id (fastify_prefix : string) (opts : options) (t : trace) :
  truthy (js_get_opt (jsonSchema_schema opts) "$id") = false ->
  addSchema' fastify_prefix opts t = (t, inl (Error missing_id_message)).
Proof. intros Hid. unfold addSchema, bind. rewrite Hid. reflexivity. Qed.

(** With an [$id], [addSchema] is the six set-up calls, in order and up to
    the first that throws, followed by the loop over the service
    declaration. *)
Lemma addSchema_calls (fastify_prefix : string) (opts : options) (t : trace) :
  truthy (js_get_opt (jsonSchema_schema opts) "$id") = true ->
  addSchema' fastify_prefix opts t
  = bind (calls server (setup_calls fastify_prefix opts))
         (fun _ => for_each (for_in (service opts))
                     (register' (service opts))) t.
Proof.
  intros Hid. unfold addSchema, setup_calls. cbn [calls].
  unfold bind, fastify, ret. rewrite Hid.
  repeat match goal with
         | |- context [server ?t0 ?c] => destruct (server t0 c); try reflexivity
         end.
Qed.

Lemma addSchema_setup (fastify_prefix : string) (opts : options) (t : trace) :
  truthy (js_get_opt (jsonSchema_schema opts) "$id") = true ->
  accepts server t (setup_calls fastify_prefix opts) ->
  addSchema' fastify_prefix opts t
  = for_each (for_in (service opts)) (register' (service opts))
             (t ++ setup_calls fastify_prefix opts).
Proof.
  intros Hid Hacc. rewrite (addSchema_calls _ _ _ Hid).
  apply calls_bind_accepts. exact Hacc.
Qed.

(** A loop only ever extends the trace. *)
Lemma for_each_extends (body : string -> M unit) (paths : list string) :
  (forall path t, exists t', fst (body path t) = t ++ t') ->
  forall t, exists t', fst (for_each paths body t) = t ++ t'.
Proof.
  intros Hbody. induction paths as [|path paths IH]; intros t; simpl.
  - exists []. rewrite app_nil_r. reflexivity.
  - unfold bind. destruct (Hbody path t) as [t1 H1].
    destruct (body path t) as [t1' [e|[]]]; simpl in H1; subst t1'.
    + exists t1. reflexivity.
    + destruct (IH (t ++ t1)) as [t2 H2]. exists (t1 ++ t2).
      rewrite H2, app_assoc. reflexivity.
Qed.

Lemma register_extends (s : service_object) (path : string) (t : trace) :
  exists t', fst (register' s path t) = t ++ t'.
Proof.
  destruct (hasOwnProperty s path) eqn:Hown.
  - rewrite (register_own _ _ Hown).
    destruct (method_ok' path); [|exists []; simpl; rewrite app_nil_r; reflexivity].
    destruct (typeof (service_get s path) =? "object").
    + unfold bind, lift. destruct (js_get (service_get s path) "handler"); simpl.
      * exists []. rewrite app_nil_r. reflexivity.
      * eexists. reflexivity.
    + destruct (typeof (service_get s path) =? "function"); simpl.
      * eexists. reflexivity.
      * exists []. rewrite app_nil_r. reflexivity.
  - rewrite (register_inherited _ _ _ Hown). exists []. simpl.
    rewrite app_nil_r. reflexivity.
Qed.

Lemma loop_extends (s : service_object) (t : trace) :
  exists t', fst (for_each (for_in s) (register' s) t) = t ++ t'.
Proof. apply for_each_extends. intros path t0. apply register_extends. Qed.

Lemma prefix_app (needle rest : string) :
  String.prefix needle (needle ++ rest) = true.
Proof.
  induction needle as [|c needle IH]; simpl; [destruct rest; reflexivity|].
  destruct (ascii_dec c c) as [_|Hne]; [exact IH | contradiction].
Qed.

Lemma occurs_in_prefix (needle hay : string) :
  String.prefix needle hay = true -> occurs_in needle hay = true.
Proof. intros H. destruct hay; cbn [occurs_in]; rewrite H; reflexivity. Qed.

Lemma occurs_in_middle (before needle rest : string) :
  occurs_in needle (before ++ needle ++ rest) = true.
Proof.
  induction before as [|c before IH]; simpl.
  - apply occurs_in_prefix, prefix_app.
  - rewrite IH. apply orb_true_r.
Qed.

Lemma unknown_method_message_names_key (path method : string) :
  occurs_in path (unknown_method_message path method) = true.
Proof. unfold unknown_method_message. apply occurs_in_middle. Qed.

Lemma own_keys_split (s : service_object) (before : obj) (path : string)
    (handler : value) (after : obj) :
  own s = before ++ (path, handler) :: after ->
  keys (own s) = keys before ++ path :: keys after
  /\ Forall (fun p => hasOwnProperty s p = true) (keys before)
  /\ hasOwnProperty s path = true.
Proof.
  intros Hown.
  assert (Hkeys : keys (own s) = keys before ++ path :: keys after).
  { rewrite Hown. unfold keys. rewrite map_app. reflexivity. }
  split; [exact Hkeys|].
  assert (Hin : forall p, In p (keys before ++ path :: keys after) ->
                          hasOwnProperty s p = true).
  { intros p Hp. unfold hasOwnProperty. apply obj_has_in.
    rewrite Hkeys. exact Hp. }
  split.
  - apply Forall_forall. intros p Hp. apply Hin, in_or_app. left. exact Hp.
  - apply Hin, in_or_app. right. left. reflexivity.
Qed.

(** C3 (amended) - With a schema that has an [$id], when the first entry of
    the service declaration that fails a check is one whose method token is
    empty or, upper-cased, not one of the seven verbs, [addSchema] throws the
    error "Wrong configuration for <key>, method [<token>] is unknown HTTP
    method", which names the key.  By then the set-up calls are made and
    every entry enumerated before the offending one is registered with
    [fastify.route]; the offending entry and the later ones are not.  (The
    server is taken to let the set-up calls and those routes in; a call of
    the server that throws ends [addSchema] there.) *)
Theorem unknown_method_aborts_at_entry (fastify_prefix : string)
    (opts : options) (before : obj) (path : string) (handler : value)
    (after : obj) (t : trace) :
  truthy (js_get_opt (jsonSchema_schema opts) "$id") = true ->
  own (service opts) = before ++ (path, handler) :: after ->
  Forall (fun p => entry_ok' (service opts) p = true) (keys before) ->
  method_ok' path = false ->
  accepts server t
    (setup_calls fastify_prefix opts
     ++ map Call_route (map (entry_route' (service opts)) (keys before))) ->
  exists routes : list obj,
    addSchema toUpperCase server fastify_prefix opts t
    = (t ++ setup_calls fastify_prefix opts ++ map Call_route routes,
       inl (Error (unknown_method_message path (method_token path))))
    /\ occurs_in path (unknown_method_message path (method_token path)) = true
    /\ Forall2 registered_as' (keys before) routes.
Proof.
  intros Hid Hown Hok Hbad Hacc.
  destruct (own_keys_split _ _ _ _ _ Hown) as [Hkeys [Hownb Hownp]].
  apply accepts_app in Hacc. destruct Hacc as [Hsetup Hroutes].
  exists (map (entry_route' (service opts)) (keys before)). split; [|split].
  - rewrite (addSchema_setup _ _ _ Hid Hsetup). unfold for_in.
    fold (keys (own (service opts))). rewrite Hkeys, <- app_assoc. simpl.
    rewrite (for_each_abort _ _ path _
               (Error (unknown_method_message path (method_token path)))
               Hownb Hok).
    + rewrite <- app_assoc. reflexivity.
    + intros t'. apply register_bad_method; assumption.
    + exact Hroutes.
  - apply unknown_method_message_names_key.
  - apply accepted_routes; assumption.
Qed.

(** C7 - For every key, the method token is the part before the first
    space (it has no space, and the key is the token, one space and the url,
    or, for a key without a space, the token alone with an empty url); an
    accepted entry is handed to [fastify.route] with the upper-cased token
    as method and, as url, the rest of the key after that first space,
    further spaces included, and the body of the loop ends as that call
    does. *)
Theorem key_splits_at_first_space (s : service_object) (path : string)
    (t : trace) :
  hasOwnProperty s path = true ->
  entry_ok' s path = true ->
  no_space (method_token path) = true
  /\ (path = template (method_token path) (url_of path)
      \/ (no_space path = true /\ path = method_token path /\ url_of path = ""))
  /\ exists routeOptions : obj,
       register' s path t
       = (t ++ [Call_route routeOptions],
          match server t (Call_route routeOptions) with
          | Some e => inl e
          | None => inr tt
          end)
       /\ obj_get "method" routeOptions
          = Some (VString (toUpperCase (method_token path)))
       /\ obj_get "url" routeOptions = Some (VString (url_of path)).
Proof.
  intros Hown Hok.
  destruct (key_shape path) as [Htok Hshape].
  split; [exact Htok|]. split; [exact Hshape|].
  destruct (register_accepted s _ Hown Hok) as [[Hmeth Hurl] Hrun].
  exists (entry_route' s path). split; [apply Hrun|]. split; assumption.
Qed.

(** C8 - With a schema that has an [$id], once the three server calls
    before it have returned, [addSchema] hands the [onRequest] hook to
    [addHook], before any route is registered and whether or not the
    registration loop later throws; on every request the hook writes the
    request's method, one space and its route-template path into
    [operationPath], leaves the other fields alone, and calls [done]
    without an error. *)
Theorem onRequest_sets_operationPath (fastify_prefix : string)
    (opts : options) (t : trace) :
  truthy (js_get_opt (jsonSchema_schema opts) "$id") = true ->
  accepts server t
    [ Call_addSchema (jsonSchema_schema opts);
      Call_decorateReply "matches" (DecPredicate matches);
      Call_decorateRequest "operationPath" (DecValue VNull) ] ->
  (exists t',
     fst (addSchema toUpperCase server fastify_prefix opts t)
     = t ++ [ Call_addSchema (jsonSchema_schema opts);
              Call_decorateReply "matches" (DecPredicate matches);
              Call_decorateRequest "operationPath" (DecValue VNull);
              Call_addHook "onRequest" (OnRequestHook onRequest) ] ++ t')
  /\ forall (req : request) (r : reply),
       onRequest req r
       = (mkRequest (req_method req) (req_routerPath req)
            (VString (req_method req ++ " " ++ req_routerPath req)),
          done None).
Proof.
  intros Hid [H1 [H2 [H3 _]]]. split; [|reflexivity].
  rewrite (addSchema_calls _ _ _ Hid). unfold setup_calls.
  rewrite calls_bind_cons, H1, calls_bind_cons, H2, calls_bind_cons, H3.
  rewrite calls_bind_cons.
  match goal with |- context [server ?t0 ?c] => destruct (server t0 c) end.
  - exists []. simpl. rewrite <- !app_assoc. reflexivity.
  - match goal with
    | |- context [bind (calls server ?cs) ?k ?t0] =>
        destruct (calls_bind_extends server cs k (loop_extends (service opts)) t0)
          as [t' Ht']
    end.
    exists t'. rewrite Ht', <- !app_assoc. reflexivity.
Qed.

(** C9 (amended) - Without a truthy [$id] in the schema, [addSchema] throws
    the error with the fixed message "Schema was ignored, $id is missing;
    Typed fastify schema was not registered..." before it calls the server
    at all; with one, it adds the schema to the server first, installs the
    decorators and hooks, and goes on to the registration loop (a call of
    the server that throws ends it there). *)
Theorem addSchema_id_check (fastify_prefix : string) (opts : options)
    (t : trace) :
  if truthy (js_get_opt (jsonSchema_schema opts) "$id")
  then addSchema toUpperCase server fastify_prefix opts t
       = bind (calls server (setup_calls fastify_prefix opts))
              (fun _ => for_each (for_in (service opts))
                          (register' (service opts))) t
       /\ (accepts server t (setup_calls fastify_prefix opts) ->
           addSchema toUpperCase server fastify_prefix opts t
           = for_each (for_in (service opts)) (register' (service opts))
               (t ++ setup_calls fastify_prefix opts))
       /\ exists t', fst (addSchema toUpperCase server fastify_prefix opts t)
                     = t ++ Call_addSchema (jsonSchema_schema opts) :: t'
  else addSchema toUpperCase server fastify_prefix opts t
       = (t, inl (Error missing_id_message)).
Proof.
  destruct (truthy (js_get_opt (jsonSchema_schema opts) "$id")) eqn:Hid.
  - split; [apply addSchema_calls; exact Hid|].
    split; [apply addSchema_setup; exact Hid|].
    rewrite (addSchema_calls _ _ _ Hid). unfold setup_calls.
    rewrite calls_bind_cons.
    match goal with |- context [server ?t0 ?c] => destruct (server t0 c) end.
    + exists []. reflexivity.
    + match goal with
      | |- context [bind (calls server ?cs) ?k ?t0] =>
          destruct (calls_bind_extends server cs k
                      (loop_extends (service opts)) t0) as [t' Ht']
      end.
      exists t'. rewrite Ht', <- app_assoc. reflexivity.
  - apply addSchema_missing_id. exact Hid.
Qed.

(** C10 (amended) - For an own entry whose key passes the method check: a
    [null] value does not reach the "Unknown handler" branch; it enters the
    [object] branch, where reading [handler.handler] throws a [TypeError]
    before [fastify.route] is called, so the trace is unchanged.  The
    "Unknown handler" error is thrown exactly for the values whose [typeof]
    is neither [object] nor [function]. *)
Theorem null_entry_throws_TypeError (s : service_object) (path : string)
    (t : trace) :
  hasOwnProperty s path = true ->
  method_ok' path = true ->
  (service_get s path = VNull ->
   register' s path t = (t, inl (TypeError "handler")))
  /\ (register' s path t = (t, inl (Error "Unknown handler")) <->
      typeof (service_get s path) <> "object"
      /\ typeof (service_get s path) <> "function").
Proof.
  intros Hown Hok. split; [apply register_null; assumption|]. split.
  - rewrite (register_own _ _ Hown), Hok.
    destruct (String.eqb_spec (typeof (service_get s path)) "object") as [Ho|Ho].
    + unfold bind, lift, js_get, fastify.
      destruct (nullish (service_get s path)); intros H.
      * discriminate H.
      * injection H as Ht _. exfalso. exact (trace_grows _ _ Ht).
    + destruct (String.eqb_spec (typeof (service_get s path)) "function")
        as [Hf|Hf].
      * unfold fastify. intros H. injection H as Ht _. exfalso.
        exact (trace_grows _ _ Ht).
      * intros _. split; assumption.
  - intros [Ho Hf]. apply register_unknown_handler; assumption.
Qed.

End RegistrationProperties.

(** ** The statements at concrete inputs *)

Ltac nodup_keys :=
  unfold unique_keys; simpl;
  repeat (constructor; [simpl; intuition discriminate|]);
  constructor.

Ltac all_accepted := simpl; repeat split.

(** C1 - the failing input.  The table and the security map both describe
    the root under "GET /"; in the plugin mounted at "/api", the route
    registered as "" gets the fragment through the retry under "GET /" but
    no [security], because the security map is read under "GET " only; the
    route registered as "/" gets both.  The two spellings do not resolve
    alike. *)
Lemma root_spellings_diverge :
  resolved_schema "/api" opts_root (mkConfig "/api" "GET" "" VUndefined)
  = inr (VObject [("response", VObject [("200", string_schema)])])
  /\ resolved_schema "/api" opts_root (mkConfig "/api" "GET" "/" VUndefined)
     = inr (VObject [("security", bearer);
                     ("response", VObject [("200", string_schema)])])
  /\ resolved_schema "/api" opts_root (mkConfig "/api" "GET" "" VUndefined)
     <> resolved_schema "/api" opts_root (mkConfig "/api" "GET" "/" VUndefined).
Proof.
  split; [reflexivity|]. split; [reflexivity|].
  vm_compute. intros H. discriminate H.
Qed.

(** The root route of [opts_root_plain], whose security map covers another
    route only: both spellings resolve alike. *)
Lemma root_spellings_resolve_alike_witness :
  exists resolved : value,
    resolved_schema "" opts_root_plain (mkConfig "" "GET" "" VUndefined)
      = inr resolved
    /\ resolved_schema "" opts_root_plain (mkConfig "" "GET" "/" VUndefined)
      = inr resolved.
Proof.
  apply (root_spellings_resolve_alike "" opts_root_plain "" "GET" VUndefined).
  - reflexivity.
  - intros m Hm. injection Hm as <-. reflexivity.
Defined.

(** C3 - counterexample.  The entry "FOO /bad" has an unknown method and
    [addSchema] throws for it, yet the route of the entry before it, "GET
    /a", is registered by then (the server lets every call return). *)
Lemma route_registered_before_abort :
  method_ok toUpperCase_ascii "FOO /bad" = false
  /\ snd (addSchema toUpperCase_ascii quiet_server "" opts_bad_method [])
     = inl (Error "Wrong configuration for FOO /bad, method [FOO] is unknown HTTP method")
  /\ routes_of (fst (addSchema toUpperCase_ascii quiet_server ""
                       opts_bad_method []))
     = [[("method", VString "GET"); ("handler", VFunction 0);
         ("url", VString "/a")]].
Proof. split; [reflexivity|]. split; reflexivity. Qed.

(** The declaration of [opts_bad_method]: "GET /a" precedes "FOO /bad". *)
Lemma unknown_method_aborts_at_entry_witness :
  exists routes : list obj,
    addSchema toUpperCase_ascii quiet_server "" opts_bad_method []
    = ([] ++ setup_calls "" opts_bad_method ++ map Call_route routes,
       inl (Error (unknown_method_message "FOO /bad" (method_token "FOO /bad"))))
    /\ occurs_in "FOO /bad"
         (unknown_method_message "FOO /bad" (method_token "FOO /bad")) = true
    /\ Forall2 (registered_as toUpperCase_ascii)
         (keys [("GET /a", VFunction 0)]) routes.
Proof.
  apply (unknown_method_aborts_at_entry toUpperCase_ascii quiet_server ""
           opts_bad_method [("GET /a", VFunction 0)] "FOO /bad" (VFunction 1)
           [] []).
  - reflexivity.
  - reflexivity.
  - repeat constructor.
  - reflexivity.
  - all_accepted.
Defined.


(** "GET /users" has no fragment in [root_table]. *)
Lemma onRoute_lookup_miss_keeps_schema_witness :
  onRoute "" opts_root (mkConfig "" "GET" "/users" summary_schema)
  = inr (mkConfig "" "GET" "/users" summary_schema)
  /\ resolved_schema "" opts_root (mkConfig "" "GET" "/users" summary_schema)
     = inr summary_schema.
Proof.
  apply (onRoute_lookup_miss_keeps_schema "" opts_root
           (mkConfig "" "GET" "/users" summary_schema)); reflexivity.
Defined.

(** A key whose path contains a space. *)
Lemma key_splits_at_first_space_witness :
  no_space (method_token "get /files/my report.txt") = true
  /\ ("get /files/my report.txt"
      = template (method_token "get /files/my report.txt")
                 (url_of "get /files/my report.txt")
      \/ (no_space "get /files/my report.txt" = true
          /\ "get /files/my report.txt" = method_token "get /files/my report.txt"
          /\ url_of "get /files/my report.txt" = ""))
  /\ exists routeOptions : obj,
       register toUpperCase_ascii quiet_server (service opts_spaced_path)
         "get /files/my report.txt" []
       = ([] ++ [Call_route routeOptions],
          match quiet_server [] (Call_route routeOptions) with
          | Some e => inl e
          | None => inr tt
          end)
       /\ obj_get "method" routeOptions
          = Some (VString (toUpperCase_ascii (method_token "get /files/my report.txt")))
       /\ obj_get "url" routeOptions
          = Some (VString (url_of "get /files/my report.txt")).
Proof.
  apply (key_splits_at_first_space toUpperCase_ascii quiet_server
           (service opts_spaced_path) "get /files/my report.txt" []);
    reflexivity.
Defined.

(** The pieces of that key and the route registered for it. *)
Example spaced_path_route :
  method_token "get /files/my report.txt" = "get"
  /\ url_of "get /files/my report.txt" = "/files/my report.txt"
  /\ routes_of (fst (addSchema toUpperCase_ascii quiet_server ""
                       opts_spaced_path []))
     = [[("method", VString "GET"); ("handler", VFunction 0);
         ("url", VString "/files/my report.txt")]].
Proof. split; [reflexivity|]. split; reflexivity. Qed.

(** The hook is handed over even though the loop throws for
    [opts_bad_method]. *)
Lemma onRequest_sets_operationPath_witness :
  (exists t',
     fst (addSchema toUpperCase_ascii quiet_server "" opts_bad_method [])
     = [] ++ [ Call_addSchema (jsonSchema_schema opts_bad_method);
               Call_decorateReply "matches" (DecPredicate matches);
               Call_decorateRequest "operationPath" (DecValue VNull);
               Call_addHook "onRequest" (OnRequestHook onRequest) ] ++ t')
  /\ forall (req : request) (r : reply),
       onRequest req r
       = (mkRequest (req_method req) (req_routerPath req)
            (VString (req_method req ++ " " ++ req_routerPath req)),
          done None).
Proof.
  apply (onRequest_sets_operationPath toUpperCase_ascii quiet_server ""
           opts_bad_method []).
  - reflexivity.
  - all_accepted.
Defined.

(** The hook at a concrete request. *)
Example operationPath_of_request :
  req_operationPath
    (fst (onRequest (mkRequest "GET" "/users/:id" VNull)
            (mkReply (mkRequest "GET" "/users/:id" VNull))))
  = VString "GET /users/:id".
Proof. reflexivity. Qed.

(** [matches] at concrete labels: the full label, the bare method, the
    label of another route. *)
Example matches_at_labels :
  matches (mkReply (mkRequest "GET" "/users/:id" VNull)) "GET /users/:id" = true
  /\ matches (mkReply (mkRequest "GET" "/users/:id" VNull)) "GET" = false
  /\ matches (mkReply (mkRequest "GET" "/users/:id" VNull)) "POST /users/:id"
     = false.
Proof. repeat split. Qed.

(** C9 - counterexample.  The schema has no [$id] and the service declares
    the single route "GET /users": the error thrown does not name it. *)
Lemma missing_id_message_names_no_key :
  addSchema toUpperCase_ascii quiet_server "" opts_no_id []
  = ([], inl (Error missing_id_message))
  /\ keys (own (service opts_no_id)) = ["GET /users"]
  /\ occurs_in "GET /users" missing_id_message = false.
Proof. split; [reflexivity|]. split; reflexivity. Qed.

(** C10 - counterexample.  The entry "GET /" is [null]: [addSchema] ends in
    a [TypeError] and [fastify.route] is never called, so no route, with or
    without a handler, is registered. *)
Lemma null_entry_registers_no_route :
  service_get (service opts_null_entry) "GET /" = VNull
  /\ addSchema toUpperCase_ascii quiet_server "" opts_null_entry []
     = (setup_calls "" opts_null_entry, inl (TypeError "handler"))
  /\ routes_of (fst (addSchema toUpperCase_ascii quiet_server ""
                       opts_null_entry [])) = [].
Proof. split; [reflexivity|]. split; reflexivity. Qed.

(** The body of the loop at the [null] entry of [opts_null_entry]. *)
Lemma null_entry_throws_TypeError_witness :
  (service_get (service opts_null_entry) "GET /" = VNull ->
   register toUpperCase_ascii quiet_server (service opts_null_entry) "GET /" []
   = ([], inl (TypeError "handler")))
  /\ (register toUpperCase_ascii quiet_server (service opts_null_entry)
        "GET /" []
      = ([], inl (Error "Unknown handler")) <->
      typeof (service_get (service opts_null_entry) "GET /") <> "object"
      /\ typeof (service_get (service opts_null_entry) "GET /") <> "function").
Proof.
  apply (null_entry_throws_TypeError toUpperCase_ascii quiet_server
           (service opts_null_entry) "GET /" []); reflexivity.
Defined.

(** ** Further examples *)

(** A route at "/" with the fragment of the table: the resolved schema
    carries the fragment's response for status 200. *)
Example root_route_gets_fragment_response :
  resolved_schema "" opts_root_plain (mkConfig "" "GET" "/" VUndefined)
  = inr (VObject [("response", VObject [("200", string_schema)])]).
Proof. reflexivity. Qed.

(** A miss on a route declared without a schema leaves it with the empty
    object the hook assigns before it tests the fragment. *)
Example lookup_miss_without_schema :
  resolved_schema "" opts_root (mkConfig "" "GET" "/users" VUndefined)
  = inr (VObject []).
Proof. reflexivity. Qed.

(** A route of another plugin (its prefix differs) is left alone even when
    the table has a fragment under its key. *)
Example other_prefix_is_skipped :
  onRoute "/api" opts_root (mkConfig "/admin" "GET" "/" VUndefined)
  = inr (mkConfig "/admin" "GET" "/" VUndefined).
Proof. reflexivity. Qed.

(** Inherited enumerable properties of the service declaration are visited
    and skipped. *)
Example inherited_entries_are_skipped :
  addSchema toUpperCase_ascii quiet_server ""
    (mkOptions api_schema [] None
       (mkService [("GET /a", VFunction 0)] [("FOO /bad", VFunction 1)])) []
  = (setup_calls ""
       (mkOptions api_schema [] None
          (mkService [("GET /a", VFunction 0)] [("FOO /bad", VFunction 1)]))
     ++ [Call_route [("method", VString "GET"); ("handler", VFunction 0);
                     ("url", VString "/a")]],
     inr tt).
Proof. reflexivity. Qed.

(** An object entry: its options are copied, then [handler], [method] and
    [url] are set. *)
Example object_entry_route :
  routes_of (fst (addSchema toUpperCase_ascii quiet_server ""
    (mkOptions api_schema [] None
       (mkService
          [("post /login",
            VObject [("url", VString "/ignored"); ("handler", VFunction 7)])]
          [])) []))
  = [[("url", VString "/login"); ("handler", VFunction 7);
      ("method", VString "POST")]].
Proof. reflexivity. Qed.

(** A server that refuses a route without a function as [handler]: the
    object entry "GET /x" passes the checks of [addSchema], is handed to
    [fastify.route], and the server's exception ends [addSchema] there; the
    entry after it is not reached. *)
Example route_refused_by_server :
  entry_ok toUpperCase_ascii (service opts_missing_handler) "GET /x" = true
  /\ snd (addSchema toUpperCase_ascii strict_server "" opts_missing_handler [])
     = inl (Error "FST_ERR_ROUTE_MISSING_HANDLER")
  /\ routes_of (fst (addSchema toUpperCase_ascii strict_server ""
                       opts_missing_handler []))
     = [ [("method", VString "GET"); ("handler", VFunction 0);
          ("url", VString "/a")];
         [("bodyLimit", VString "1kb"); ("handler", VUndefined);
          ("method", VString "GET"); ("url", VString "/x")] ].
Proof. split; [reflexivity|]. split; reflexivity. Qed.

(** * Further properties of the registration loop *)

Section RegistrationFurther.

Variable toUpperCase : string -> string.
Variable server : server_behaviour.

Local Abbreviation register' := (register toUpperCase server).
Local Abbreviation method_ok' := (method_ok toUpperCase).
Local Abbreviation entry_ok' := (entry_ok toUpperCase).
Local Abbreviation registered_as' := (registered_as toUpperCase).
Local Abbreviation entry_route' := (entry_route toUpperCase).

Lemma for_each_app (body : string -> M unit) (l1 l2 : list string) (t : trace) :
  for_each (l1 ++ l2) body t
  = match for_each l1 body t with
    | (t', inr _) => for_each l2 body t'
    | (t', inl e) => (t', inl e)
    end.
Proof.
  revert t. induction l1 as [|path l1 IH]; intros t; simpl; [reflexivity|].
  unfold bind. destruct (body path t) as [t1 [e|[]]]; [reflexivity|].
  apply IH.
Qed.

Lemma for_each_skipped (s : service_object) (paths : list string) (t : trace) :
  Forall (fun path => hasOwnProperty s path = false) paths ->
  for_each paths (register' s) t = (t, inr tt).
Proof.
  induction 1 as [|path paths Hskip _ IH]; simpl; [reflexivity|].
  unfold bind. rewrite (register_inherited _ _ _ _ _ Hskip). exact IH.
Qed.

Lemma inherited_keys_skipped (s : service_object) :
  Forall (fun path => hasOwnProperty s path = false)
         (filter (fun k => negb (obj_has k (own s))) (map fst (inherited s))).
Proof.
  apply Forall_forall. intros path Hin. apply filter_In in Hin.
  destruct Hin as [_ Hno]. apply negb_true_iff in Hno. exact Hno.
Qed.

(** The loop over the whole enumeration is the loop over the own keys. *)
Lemma for_each_for_in (s : service_object) (t : trace) :
  for_each (for_in s) (register' s) t
  = for_each (keys (own s)) (register' s) t.
Proof.
  unfold for_in. rewrite for_each_app. fold (keys (own s)).
  destruct (for_each (keys (own s)) (register' s) t) as [t' [e|[]]];
    [reflexivity|].
  apply for_each_skipped, inherited_keys_skipped.
Qed.

Lemma Forall_own_keys (s : service_object) :
  Forall (fun path => hasOwnProperty s path = true) (keys (own s)).
Proof.
  apply Forall_forall. intros path Hin. apply obj_has_in. exact Hin.
Qed.

(** X1 - With a schema that has an [$id], a service declaration whose own
    entries are all accepted (known method, handler a non-null object or a
    function) and a server that lets the set-up calls and the routes of
    those entries in, [addSchema] completes: after the set-up calls it
    registers exactly one route per own entry, in enumeration order, each
    with the upper-cased token as method and the rest of its key as url. *)
Theorem all_entries_registered (fastify_prefix : string) (opts : options)
    (t : trace) :
  truthy (js_get_opt (jsonSchema_schema opts) "$id") = true ->
  Forall (fun path => entry_ok' (service opts) path = true)
         (keys (own (service opts))) ->
  accepts server t
    (setup_calls fastify_prefix opts
     ++ map Call_route
          (map (entry_route' (service opts)) (keys (own (service opts))))) ->
  exists routes : list obj,
    addSchema toUpperCase server fastify_prefix opts t
    = (t ++ setup_calls fastify_prefix opts ++ map Call_route routes, inr tt)
    /\ Forall2 registered_as' (keys (own (service opts))) routes.
Proof.
  intros Hid Hok Hacc.
  apply accepts_app in Hacc. destruct Hacc as [Hsetup Hroutes].
  exists (map (entry_route' (service opts)) (keys (own (service opts)))).
  split.
  - rewrite (addSchema_setup _ _ _ _ _ Hid Hsetup), for_each_for_in.
    rewrite (for_each_routes _ _ _ _ (Forall_own_keys _) Hok _ Hroutes).
    rewrite <- app_assoc. reflexivity.
  - apply accepted_routes. exact Hok.
Qed.

Lemma register_bad_handler (s : service_object) (path : string) (t : trace) :
  hasOwnProperty s path = true ->
  method_ok' path = true ->
  handler_ok (service_get s path) = false ->
  register' s path t = (t, inl (bad_handler_error (service_get s path))).
Proof.
  intros Hown Hm Hh. rewrite (register_own _ _ _ _ Hown), Hm.
  unfold handler_ok, bad_handler_error in *.
  apply orb_false_iff in Hh. destruct Hh as [Hf Ho]. rewrite Hf.
  destruct (typeof (service_get s path) =? "object"); [|reflexivity].
  simpl in Ho. apply negb_false_iff in Ho.
  unfold bind, lift, js_get. rewrite Ho. reflexivity.
Qed.

(** X2 - With a schema that has an [$id], when the first entry that fails a
    check has a known method but a value that is neither a non-null object
    nor a function, [addSchema] throws for it - a [TypeError] when the value
    is [null], the error "Unknown handler" (which does not name the key)
    otherwise - after registering every entry enumerated before it and
    none from it on.  (The server is taken to let the set-up calls and those
    routes in.) *)
Theorem bad_handler_aborts_at_entry (fastify_prefix : string)
    (opts : options) (before : obj) (path : string) (handler : value)
    (after : obj) (t : trace) :
  truthy (js_get_opt (jsonSchema_schema opts) "$id") = true ->
  own (service opts) = before ++ (path, handler) :: after ->
  Forall (fun p => entry_ok' (service opts) p = true) (keys before) ->
  method_ok' path = true ->
  handler_ok (service_get (service opts) path) = false ->
  accepts server t
    (setup_calls fastify_prefix opts
     ++ map Call_route (map (entry_route' (service opts)) (keys before))) ->
  exists routes : list obj,
    addSchema toUpperCase server fastify_prefix opts t
    = (t ++ setup_calls fastify_prefix opts ++ map Call_route routes,
       inl (bad_handler_error (service_get (service opts) path)))
    /\ Forall2 registered_as' (keys before) routes.
Proof.
  intros Hid Hown Hok Hm Hh Hacc.
  destruct (own_keys_split _ _ _ _ _ Hown) as [Hkeys [Hownb Hownp]].
  apply accepts_app in Hacc. destruct Hacc as [Hsetup Hroutes].
  exists (map (entry_route' (service opts)) (keys before)). split.
  - rewrite (addSchema_setup _ _ _ _ _ Hid Hsetup), for_each_for_in, Hkeys.
    rewrite (for_each_abort _ _ _ _ path _
               (bad_handler_error (service_get (service opts) path))
               Hownb Hok).
    + rewrite <- app_assoc. reflexivity.
    + intros t'. apply register_bad_handler; assumption.
    + exact Hroutes.
  - apply accepted_routes; assumption.
Qed.

Lemma routes_of_app (t1 t2 : trace) :
  routes_of (t1 ++ t2) = routes_of t1 ++ routes_of t2.
Proof.
  induction t1 as [|c t1 IH]; simpl; [reflexivity|].
  destruct c; simpl; rewrite IH; reflexivity.
Qed.

Lemma for_each_ext (b1 b2 : string -> M unit) (paths : list string) :
  (forall path t, b1 path t = b2 path t) ->
  forall t, for_each paths b1 t = for_each paths b2 t.
Proof.
  intros Hb. induction paths as [|path paths IH]; intros t; simpl;
    [reflexivity|].
  unfold bind. rewrite Hb. destruct (b2 path t) as [t1 [e|[]]];
    [reflexivity | apply IH].
Qed.

Lemma register_own_only (s : service_object) (path : string) (t : trace) :
  register' s path t = register' (mkService (own s) []) path t.
Proof.
  destruct (hasOwnProperty s path) eqn:Hown.
  - assert (Hown' : hasOwnProperty (mkService (own s) []) path = true)
      by exact Hown.
    rewrite (register_own _ _ _ _ Hown), (register_own _ _ _ _ Hown').
    assert (Hget : service_get (mkService (own s) []) path = service_get s path).
    { unfold service_get, hasOwnProperty, obj_has in *. simpl.
      destruct (obj_get path (own s)); [reflexivity | discriminate]. }
    rewrite Hget. reflexivity.
  - assert (Hown' : hasOwnProperty (mkService (own s) []) path = false)
      by exact Hown.
    rewrite (register_inherited _ _ _ _ _ Hown).
    rewrite (register_inherited _ _ _ _ _ Hown'). reflexivity.
Qed.

(** X3 - The enumerable properties that the service declaration inherits
    play no part, even when an inherited entry is malformed and whatever the
    server answers: the loop makes the calls and ends the way the loop over
    the own properties alone does, on a declaration that inherits nothing;
    and so does [addSchema], which is its [$id] check, the set-up calls and
    that loop. *)
Theorem inherited_properties_ignored (fastify_prefix : string)
    (opts : options) (t : trace) :
  for_each (for_in (service opts)) (register' (service opts)) t
  = for_each (keys (own (service opts)))
      (register' (mkService (own (service opts)) [])) t
  /\ addSchema toUpperCase server fastify_prefix opts t
     = if truthy (js_get_opt (jsonSchema_schema opts) "$id")
       then bind (calls server (setup_calls fastify_prefix opts))
              (fun _ => for_each (keys (own (service opts)))
                          (register' (mkService (own (service opts)) []))) t
       else (t, inl (Error missing_id_message)).
Proof.
  assert (Hloop : forall t0,
    for_each (for_in (service opts)) (register' (service opts)) t0
    = for_each (keys (own (service opts)))
        (register' (mkService (own (service opts)) [])) t0).
  { intros t0. rewrite for_each_for_in.
    apply for_each_ext. intros path t1. apply register_own_only. }
  split; [apply Hloop|].
  destruct (truthy (js_get_opt (jsonSchema_schema opts) "$id")) eqn:Hid.
  - rewrite (addSchema_calls _ _ _ _ _ Hid).
    apply bind_ext. intros _ t0. apply Hloop.
  - apply addSchema_missing_id. exact Hid.
Qed.

Lemma httpMethods_has_In (m : string) :
  httpMethods_has m = true -> In m httpMethods.
Proof.
  unfold httpMethods_has. intros H. apply existsb_exists in H.
  destruct H as [x [Hin Heq]]. apply String.eqb_eq in Heq. subst. exact Hin.
Qed.

Lemma method_ok_In (path : string) :
  method_ok' path = true -> In (toUpperCase (method_token path)) httpMethods.
Proof.
  unfold method_ok. intros H. apply andb_true_iff in H.
  apply httpMethods_has_In, H.
Qed.

Lemma entry_route_well_formed (s : service_object) (path : string) :
  method_ok' path = true ->
  route_well_formed (entry_route' s path).
Proof.
  intros Hm. pose proof (method_ok_In _ Hm) as Hin.
  unfold entry_route, route_well_formed.
  destruct (typeof (service_get s path) =? "object").
  - unfold object_route, obj_has. rewrite !obj_get_set. simpl. repeat split.
    + eexists. split; [reflexivity | exact Hin].
    + eexists. reflexivity.
  - simpl. repeat split.
    + eexists. split; [reflexivity | exact Hin].
    + eexists. reflexivity.
Qed.

Lemma register_routes_well_formed (s : service_object) (path : string)
    (t : trace) :
  Forall route_well_formed (routes_of t) ->
  Forall route_well_formed (routes_of (fst (register' s path t))).
Proof.
  intros Ht.
  destruct (hasOwnProperty s path) eqn:Hown;
    [|rewrite (register_inherited _ _ _ _ _ Hown); exact Ht].
  destruct (method_ok' path) eqn:Hm;
    [|rewrite (register_bad_method _ _ _ _ _ Hown Hm); exact Ht].
  destruct (handler_ok (service_get s path)) eqn:Hh;
    [|rewrite (register_bad_handler _ _ _ Hown Hm Hh); exact Ht].
  destruct (register_accepted toUpperCase server s path Hown) as [_ Hrun].
  { unfold entry_ok. rewrite Hm, Hh. reflexivity. }
  rewrite Hrun. simpl. rewrite routes_of_app. apply Forall_app.
  split; [exact Ht|]. simpl. constructor; [|constructor].
  apply entry_route_well_formed. exact Hm.
Qed.

Lemma for_each_routes_well_formed (s : service_object) (paths : list string)
    (t : trace) :
  Forall route_well_formed (routes_of t) ->
  Forall route_well_formed (routes_of (fst (for_each paths (register' s) t))).
Proof.
  revert t. induction paths as [|path paths IH]; intros t Ht; simpl;
    [exact Ht|].
  unfold bind.
  pose proof (register_routes_well_formed s path t Ht) as Hbody.
  destruct (register' s path t) as [t1 [e|[]]]; simpl in *.
  - exact Hbody.
  - apply IH. exact Hbody.
Qed.

Lemma setup_calls_no_route (fastify_prefix : string) (opts : options)
    (l1 : list call) (c : call) (l2 : list call) :
  setup_calls fastify_prefix opts = l1 ++ c :: l2 ->
  routes_of (l1 ++ [c]) = [].
Proof.
  intros Hsplit.
  assert (H : routes_of (setup_calls fastify_prefix opts) = []) by reflexivity.
  rewrite Hsplit, routes_of_app in H. apply app_eq_nil in H.
  destruct H as [H1 H2]. rewrite routes_of_app, H1.
  destruct c; simpl in *; try reflexivity. discriminate H2.
Qed.

(** X4 - Whatever the service declaration holds, whatever the server
    answers and however [addSchema] ends, every route it hands to
    [fastify.route] has one of the seven verbs as [method], a string as
    [url] and a [handler] property: a [method] or [url] written in an
    entry's route options never reaches the server. *)
Theorem registered_routes_well_formed (fastify_prefix : string)
    (opts : options) :
  Forall route_well_formed
         (routes_of (fst (addSchema toUpperCase server fastify_prefix opts []))).
Proof.
  destruct (truthy (js_get_opt (jsonSchema_schema opts) "$id")) eqn:Hid.
  - rewrite (addSchema_calls _ _ _ _ _ Hid).
    match goal with
    | |- context [bind (calls server ?cs) ?k ?t0] =>
        destruct (calls_bind_cases server cs k t0)
          as [[_ Hrun]|[l1 [c [l2 [e [Hsplit [_ [_ Hrun]]]]]]]]
    end; rewrite Hrun.
    + apply for_each_routes_well_formed. simpl. constructor.
    + simpl. rewrite (setup_calls_no_route _ _ _ _ _ Hsplit). constructor.
  - rewrite (addSchema_missing_id _ _ _ _ _ Hid). constructor.
Qed.

(** X5 - An accepted entry that is an object is handed to [fastify.route]
    with its own properties passed through, except that [url] and [method]
    are those computed from the key and [handler] is the object's [handler]
    property ([undefined] when it has none); the body of the loop ends as
    that call does. *)
Theorem object_entry_options (s : service_object) (path : string)
    (t : trace) :
  hasOwnProperty s path = true ->
  method_ok' path = true ->
  typeof (service_get s path) = "object" ->
  nullish (service_get s path) = false ->
  unique_keys (service_get s path) ->
  exists routeOptions : obj,
    register' s path t
    = (t ++ [Call_route routeOptions],
       match server t (Call_route routeOptions) with
       | Some e => inl e
       | None => inr tt
       end)
    /\ forall k,
         obj_get k routeOptions
         = if "url" =? k then Some (VString (url_of path))
           else if "method" =? k
                then Some (VString (toUpperCase (method_token path)))
           else if "handler" =? k
                then Some (get_own (service_get s path) "handler")
           else obj_get k (own_props (service_get s path)).
Proof.
  intros Hown Hm Ho Hnn Huniq.
  exists (object_route toUpperCase path (service_get s path)). split.
  - apply register_object; assumption.
  - intros k. unfold object_route. rewrite !obj_get_set.
    rewrite (obj_get_spread _ _ _ Huniq).
    destruct (obj_get k (own_props (service_get s path))); reflexivity.
Qed.

Lemma method_token_leading_space (path : string) :
  path = "" \/ (exists rest, path = String " " rest) ->
  method_token path = "".
Proof. intros [->|[rest ->]]; reflexivity. Qed.

(** X6 - An own entry whose key is empty or begins with a space is rejected
    with the unknown-method error showing an empty method, whatever its
    value is and whatever [toUpperCase] makes of the empty string. *)
Theorem empty_method_token_rejected (s : service_object) (path : string)
    (t : trace) :
  hasOwnProperty s path = true ->
  path = "" \/ (exists rest, path = String " " rest) ->
  register' s path t = (t, inl (Error (unknown_method_message path ""))).
Proof.
  intros Hown Hpath.
  pose proof (method_token_leading_space _ Hpath) as Htok.
  assert (Hbad : method_ok' path = false).
  { unfold method_ok. rewrite Htok. reflexivity. }
  rewrite (register_bad_method _ _ _ _ _ Hown Hbad), Htok. reflexivity.
Qed.

End RegistrationFurther.

(** * Further properties of the hooks *)

(** X7 - [matches] and the [onRequest] hook agree: once the hook has run,
    [matches] accepts exactly the label that the hook stored in
    [operationPath]. *)
Theorem matches_agrees_with_operationPath (req : request) (r : reply)
    (label : string) :
  matches (mkReply (fst (onRequest req r))) label = true
  <-> req_operationPath (fst (onRequest req r)) = VString label.
Proof.
  unfold matches. simpl. rewrite String.eqb_eq. split.
  - intros ->. reflexivity.
  - intros H. injection H as H. exact H.
Qed.

(** X8 - A route of the plugin's own prefix always leaves the hook with a
    truthy schema: an object built by the merge when a fragment is found,
    and otherwise the schema it was declared with or, when it had none, the
    empty object - the security map is not consulted on a miss.  A route of
    any other prefix is returned as it came. *)
Theorem matching_route_gets_schema (fastify_prefix : string) (opts : options)
    (config : route_config) :
  if cfg_prefix config =? fastify_prefix
  then exists s : value,
         resolved_schema fastify_prefix opts config = inr s
         /\ truthy s = true
         /\ (if truthy (maybeSchema opts config)
             then s = VObject (merged_schema opts config)
             else s = js_or (cfg_schema config) (VObject []))
  else onRoute fastify_prefix opts config = inr config.
Proof.
  destruct (String.eqb_spec (cfg_prefix config) fastify_prefix) as [Hp|Hp].
  - unfold resolved_schema.
    destruct (truthy (maybeSchema opts config)) eqn:Ht.
    + rewrite (onRoute_hit _ _ _ Hp Ht). eexists. repeat split.
    + rewrite (onRoute_miss _ _ _ Ht), Hp, String.eqb_refl.
      eexists. split; [reflexivity|]. split; [|reflexivity].
      apply js_or_object_truthy.
  - unfold onRoute. apply String.eqb_neq in Hp. rewrite Hp. reflexivity.
Qed.


Lemma obj_has_set (k k' : string) (v : value) (o : obj) :
  obj_has k' (obj_set k v o) = (k =? k') || obj_has k' o.
Proof.
  unfold obj_has. rewrite obj_get_set. destruct (k =? k'); reflexivity.
Qed.

Lemma obj_has_fold_set (k : string) (src target : obj) :
  obj_has k (fold_left (fun acc kv => obj_set (fst kv) (snd kv) acc) src target)
  = obj_has k target || obj_has k src.
Proof.
  revert target. induction src as [|[k1 v1] src IH]; intros target; simpl.
  - rewrite orb_false_r. reflexivity.
  - rewrite IH, obj_has_set. unfold obj_has. simpl.
    destruct (k1 =? k); destruct (obj_get k target);
      destruct (obj_get k src); reflexivity.
Qed.

(** The keys of [{...target, ...src}] are those of either. *)
Lemma obj_has_spread (k : string) (target : obj) (src : value) :
  obj_has k (spread target src)
  = obj_has k target || obj_has k (own_props src).
Proof. apply obj_has_fold_set. Qed.

(** X11 - The hook never removes a property of the schema a route was
    declared with: every key of the declared schema is a key of the resolved
    one (its value may have been replaced). *)
Theorem declared_keys_survive (fastify_prefix : string) (opts : options)
    (config : route_config) (k : string) :
  obj_has k (own_props (cfg_schema config)) = true ->
  exists s : value,
    resolved_schema fastify_prefix opts config = inr s
    /\ obj_has k (own_props s) = true.
Proof.
  intros Hk.
  assert (Hs : truthy (cfg_schema config) = true).
  { destruct (truthy (cfg_schema config)) eqn:Ht; [reflexivity|].
    rewrite (own_props_falsy _ Ht) in Hk. discriminate Hk. }
  unfold resolved_schema.
  destruct (truthy (maybeSchema opts config)) eqn:Ht.
  - destruct (String.eqb_spec (cfg_prefix config) fastify_prefix) as [Hp|Hp].
    + rewrite (onRoute_hit _ _ _ Hp Ht). eexists. split; [reflexivity|].
      simpl. unfold merged_schema. rewrite !obj_has_spread.
      rewrite (js_or_truthy _ _ Hs), Hk. reflexivity.
    + unfold onRoute. apply String.eqb_neq in Hp. rewrite Hp. simpl.
      eexists. split; [reflexivity | exact Hk].
  - rewrite (onRoute_miss _ _ _ Ht), (js_or_truthy _ _ Hs), set_schema_same.
    exists (cfg_schema config).
    destruct (cfg_prefix config =? fastify_prefix); split;
      try reflexivity; exact Hk.
Qed.

(** ** Running the [onRoute] hook again *)

Lemma keys_obj_update (k : string) (v : value) (o : obj) :
  keys (obj_update k v o) = keys o.
Proof.
  induction o as [|[k1 v1] o IH]; simpl; [reflexivity|].
  destruct (k1 =? k); simpl; [reflexivity | rewrite IH; reflexivity].
Qed.

Lemma In_keys_insert_index (n : N) (k x : string) (v : value) (o : obj) :
  In x (keys (obj_insert_index n k v o)) <-> x = k \/ In x (keys o).
Proof.
  induction o as [|[k1 v1] o IH]; simpl.
  - split; intros [H|H]; auto; contradiction.
  - destruct (array_index k1) as [n1|]; [destruct (n <? n1)%N|]; simpl;
      try (split; intros [H|H]; auto; fail).
    rewrite IH. split; intros H; tauto.
Qed.

Lemma obj_has_false_not_in (k : string) (o : obj) :
  obj_has k o = false -> ~ In k (keys o).
Proof.
  intros Hno Hin. rewrite (obj_has_in _ _ Hin) in Hno. discriminate Hno.
Qed.

Lemma NoDup_insert_index (n : N) (k : string) (v : value) (o : obj) :
  ~ In k (keys o) -> NoDup (keys o) ->
  NoDup (keys (obj_insert_index n k v o)).
Proof.
  induction o as [|[k1 v1] o IH]; simpl; intros Hk Hnd.
  - constructor; [intros [] | constructor].
  - assert (Hcons : NoDup (k :: k1 :: keys o)) by (constructor; assumption).
    destruct (array_index k1) as [n1|]; [destruct (n <? n1)%N|]; simpl;
      try exact Hcons.
    inversion Hnd as [|? ? Hk1 Hnd']; subst. constructor.
    + rewrite In_keys_insert_index. intros [->|Hin]; [|contradiction].
      apply Hk. left. reflexivity.
    + apply IH; [|exact Hnd']. intros Hin. apply Hk. right. exact Hin.
Qed.

(** CreateDataProperty keeps the keys of an object distinct. *)
Lemma NoDup_obj_set (k : string) (v : value) (o : obj) :
  NoDup (keys o) -> NoDup (keys (obj_set k v o)).
Proof.
  intros Hnd. unfold obj_set. destruct (obj_has k o) eqn:Hhas.
  - rewrite keys_obj_update. exact Hnd.
  - apply obj_has_false_not_in in Hhas.
    destruct (array_index k) as [n|].
    + apply NoDup_insert_index; assumption.
    + unfold keys. rewrite map_app. simpl.
      apply NoDup_app; [exact Hnd | constructor; [intros []|constructor] |].
      intros x Hx [<-|[]]. exact (Hhas Hx).
Qed.

Lemma NoDup_fold_set (src target : obj) :
  NoDup (keys target) ->
  NoDup (keys (fold_left (fun acc kv => obj_set (fst kv) (snd kv) acc)
                 src target)).
Proof.
  revert target. induction src as [|[k1 v1] src IH]; intros target Hnd; simpl;
    [exact Hnd|].
  apply IH, NoDup_obj_set, Hnd.
Qed.

Lemma NoDup_spread (target : obj) (src : value) :
  NoDup (keys target) -> NoDup (keys (spread target src)).
Proof. apply NoDup_fold_set. Qed.

Lemma key_le_index_trans (k k1 x : string) (n n1 : N) :
  array_index k = Some n -> array_index k1 = Some n1 -> (n <= n1)%N ->
  key_le k1 x -> key_le k x.
Proof.
  unfold key_le. intros -> ->. destruct (array_index x); [lia | trivial].
Qed.

Lemma sorted_insert_index (n : N) (k : string) (v : value) (o : obj) :
  array_index k = Some n ->
  StronglySorted key_le (keys o) ->
  StronglySorted key_le (keys (obj_insert_index n k v o)).
Proof.
  intros Hk. induction o as [|[k1 v1] o IH]; simpl; intros Hs.
  - constructor; constructor.
  - inversion Hs as [|? ? Hs' Hall]; subst.
    destruct (array_index k1) as [n1|] eqn:Hk1.
    + destruct (N.ltb_spec n n1) as [Hlt|Hge]; simpl.
      * constructor; [exact Hs|]. constructor.
        -- unfold key_le. rewrite Hk, Hk1. lia.
        -- eapply Forall_impl; [|exact Hall]. intros x Hx.
           apply (key_le_index_trans k k1 x n n1); try assumption. lia.
      * constructor; [apply IH; exact Hs'|].
        apply Forall_forall. intros x Hx.
        apply In_keys_insert_index in Hx. destruct Hx as [->|Hx].
        -- unfold key_le. rewrite Hk, Hk1. exact Hge.
        -- rewrite Forall_forall in Hall. apply Hall, Hx.
    + simpl. constructor; [exact Hs|]. constructor.
      * unfold key_le. rewrite Hk, Hk1. trivial.
      * eapply Forall_impl; [|exact Hall]. intros x. unfold key_le.
        rewrite Hk, Hk1. destruct (array_index x); [intros [] | trivial].
Qed.

Lemma sorted_snoc {A : Type} (R : A -> A -> Prop) (l : list A) (x : A) :
  StronglySorted R l -> Forall (fun y => R y x) l ->
  StronglySorted R (l ++ [x]).
Proof.
  induction 1 as [|a l Hs IH Hall]; simpl; intros Hx.
  - constructor; constructor.
  - inversion Hx as [|? ? Hax Hx']; subst. constructor; [apply IH, Hx'|].
    apply Forall_app. split; [exact Hall | constructor; [exact Hax|constructor]].
Qed.

(** CreateDataProperty keeps the keys in enumeration order. *)
Lemma sorted_obj_set (k : string) (v : value) (o : obj) :
  StronglySorted key_le (keys o) ->
  StronglySorted key_le (keys (obj_set k v o)).
Proof.
  intros Hs. unfold obj_set. destruct (obj_has k o).
  - rewrite keys_obj_update. exact Hs.
  - destruct (array_index k) as [n|] eqn:Hk.
    + apply sorted_insert_index; assumption.
    + unfold keys. rewrite map_app. simpl. apply sorted_snoc; [exact Hs|].
      apply Forall_forall. intros y _. unfold key_le. rewrite Hk.
      destruct (array_index y); trivial.
Qed.

Lemma sorted_spread (target : obj) (src : value) :
  StronglySorted key_le (keys target) ->
  StronglySorted key_le (keys (spread target src)).
Proof.
  unfold spread. generalize (own_props src) as l. intros l. revert target.
  induction l as [|[k1 v1] l IH]; intros target Hs; simpl; [exact Hs|].
  apply IH, sorted_obj_set, Hs.
Qed.

Lemma insert_index_at_end (n : N) (k : string) (v : value) (acc : obj) :
  (forall k', In k' (keys acc) ->
              exists n', array_index k' = Some n' /\ (n' <= n)%N) ->
  obj_insert_index n k v acc = acc ++ [(k, v)].
Proof.
  induction acc as [|[k1 v1] acc IH]; simpl; intros Hall; [reflexivity|].
  destruct (Hall k1 (or_introl eq_refl)) as [n1 [Hk1 Hle]]. rewrite Hk1.
  destruct (N.ltb_spec n n1) as [Hlt|_]; [lia|].
  rewrite IH; [reflexivity|]. intros k' Hin. apply Hall. right. exact Hin.
Qed.

Lemma sorted_app_mid {A : Type} (R : A -> A -> Prop) (l1 : list A) (x : A)
    (l2 : list A) :
  StronglySorted R (l1 ++ x :: l2) -> Forall (fun y => R y x) l1.
Proof.
  induction l1 as [|a l1 IH]; simpl; intros Hs; [constructor|].
  inversion Hs as [|? ? Hs' Hall]; subst. constructor; [|apply IH, Hs'].
  rewrite Forall_forall in Hall. apply Hall, in_elt.
Qed.

(** Copying an object whose keys are distinct and in enumeration order,
    property by property, rebuilds it. *)
Lemma fold_set_rebuild (rest acc : obj) :
  StronglySorted key_le (keys (acc ++ rest)) ->
  NoDup (keys (acc ++ rest)) ->
  fold_left (fun o kv => obj_set (fst kv) (snd kv) o) rest acc = acc ++ rest.
Proof.
  revert acc. induction rest as [|[k v] rest IH]; intros acc Hs Hnd; simpl.
  - rewrite app_nil_r. reflexivity.
  - assert (Hset : obj_set k v acc = acc ++ [(k, v)]).
    { unfold keys in Hs, Hnd. rewrite map_app in Hs, Hnd. simpl in Hs, Hnd.
      assert (Hno : obj_has k acc = false).
      { unfold obj_has. rewrite obj_get_not_in; [reflexivity|].
        intros Hin. apply NoDup_remove_2 in Hnd. apply Hnd, in_or_app.
        left. exact Hin. }
      unfold obj_set. rewrite Hno.
      destruct (array_index k) as [n|] eqn:Hk; [|reflexivity].
      apply insert_index_at_end. intros k' Hin.
      pose proof (sorted_app_mid _ _ _ _ Hs) as Hall.
      rewrite Forall_forall in Hall. specialize (Hall k' Hin).
      unfold key_le in Hall. rewrite Hk in Hall.
      destruct (array_index k') as [n'|]; [|contradiction].
      exists n'. split; [reflexivity | exact Hall]. }
    rewrite Hset. rewrite IH; rewrite <- app_assoc; simpl;
      [reflexivity | exact Hs | exact Hnd].
Qed.

Lemma obj_ext (o1 o2 : obj) :
  keys o1 = keys o2 -> NoDup (keys o1) ->
  (forall k, obj_get k o1 = obj_get k o2) -> o1 = o2.
Proof.
  revert o2. induction o1 as [|[k1 v1] o1 IH]; intros [|[k2 v2] o2]; simpl;
    intros Hk Hnd Hget; try discriminate; [reflexivity|].
  injection Hk as <- Hk. inversion Hnd as [|? ? Hnotin Hnd']; subst.
  pose proof (Hget k1) as H1. rewrite String.eqb_refl in H1.
  injection H1 as <-. f_equal. apply IH; [exact Hk | exact Hnd'|].
  intros k. specialize (Hget k).
  destruct (k1 =? k) eqn:Heq; [|exact Hget].
  apply String.eqb_eq in Heq. subst k.
  rewrite (obj_get_not_in _ _ Hnotin).
  rewrite Hk in Hnotin. rewrite (obj_get_not_in _ _ Hnotin). reflexivity.
Qed.

Lemma keys_fold_set_present (src target : obj) :
  (forall x, In x (keys src) -> obj_has x target = true) ->
  keys (fold_left (fun o kv => obj_set (fst kv) (snd kv) o) src target)
  = keys target.
Proof.
  revert target. induction src as [|[k1 v1] src IH]; intros target Hin; simpl;
    [reflexivity|].
  assert (Hk : keys (obj_set k1 v1 target) = keys target).
  { unfold obj_set. rewrite (Hin k1 (or_introl eq_refl)).
    apply keys_obj_update. }
  rewrite IH; [exact Hk|]. intros x Hx. rewrite obj_has_set.
  rewrite (Hin x (or_intror Hx)). apply orb_true_r.
Qed.

(** Reading a key after a copy, whatever the source list: its last binding
    in the source when it has one. *)
Lemma obj_get_fold_set_last (k : string) (src target : obj) :
  obj_get k (fold_left (fun o kv => obj_set (fst kv) (snd kv) o) src target)
  = match obj_get k (rev src) with
    | Some v => Some v
    | None => obj_get k target
    end.
Proof.
  revert target. induction src as [|[k1 v1] src IH]; intros target; simpl;
    [reflexivity|].
  rewrite IH, obj_get_app, obj_get_set. simpl.
  destruct (obj_get k (rev src)); [reflexivity|].
  destruct (k1 =? k); reflexivity.
Qed.

Lemma obj_get_spread_last (k : string) (target : obj) (src : value) :
  obj_get k (spread target src)
  = match obj_get k (rev (own_props src)) with
    | Some v => Some v
    | None => obj_get k target
    end.
Proof. apply obj_get_fold_set_last. Qed.

Lemma keys_spread_present (target : obj) (src : value) :
  (forall x, In x (keys (own_props src)) -> obj_has x target = true) ->
  keys (spread target src) = keys target.
Proof. apply keys_fold_set_present. Qed.

(** Building the merge again on top of its own result gives that result. *)
Lemma respread (E S P R : value) :
  spread (spread (spread (spread []
    (VObject (spread (spread (spread (spread [] E) S) P) R))) S) P) R
  = spread (spread (spread (spread [] E) S) P) R.
Proof.
  set (M := spread (spread (spread (spread [] E) S) P) R).
  assert (HndM : NoDup (keys M)).
  { unfold M. repeat apply NoDup_spread. constructor. }
  assert (HsM : StronglySorted key_le (keys M)).
  { unfold M. repeat apply sorted_spread. constructor. }
  assert (HA : spread [] (VObject M) = M).
  { unfold spread at 1. simpl own_props.
    apply (fold_set_rebuild M []); assumption. }
  rewrite HA.
  assert (HS : forall x, In x (keys (own_props S)) -> obj_has x M = true).
  { intros x Hx. unfold M. rewrite !obj_has_spread, (obj_has_in _ _ Hx).
    rewrite orb_true_r. reflexivity. }
  assert (HP : forall x, In x (keys (own_props P)) -> obj_has x M = true).
  { intros x Hx. unfold M. rewrite !obj_has_spread, (obj_has_in _ _ Hx).
    rewrite orb_true_r. reflexivity. }
  assert (HR : forall x, In x (keys (own_props R)) -> obj_has x M = true).
  { intros x Hx. unfold M. rewrite !obj_has_spread, (obj_has_in _ _ Hx).
    rewrite orb_true_r. reflexivity. }
  apply obj_ext.
  - rewrite keys_spread_present.
    + rewrite keys_spread_present.
      * apply keys_spread_present, HS.
      * intros x Hx. rewrite obj_has_spread, (HP x Hx). reflexivity.
    + intros x Hx. rewrite !obj_has_spread, (HR x Hx). reflexivity.
  - do 3 apply NoDup_spread. exact HndM.
  - intros k. rewrite !obj_get_spread_last. unfold M.
    rewrite !obj_get_spread_last.
    destruct (obj_get k (rev (own_props R))); [reflexivity|].
    destruct (obj_get k (rev (own_props P))); [reflexivity|].
    destruct (obj_get k (rev (own_props S))); reflexivity.
Qed.

Lemma maybeSchema_set_schema (opts : options) (config : route_config)
    (s : value) :
  maybeSchema opts (set_schema config s) = maybeSchema opts config.
Proof. reflexivity. Qed.

Lemma merged_schema_again (opts : options) (config : route_config) :
  merged_schema opts (set_schema config (VObject (merged_schema opts config)))
  = merged_schema opts config.
Proof.
  unfold merged_schema. rewrite !maybeSchema_set_schema.
  cbn [cfg_schema cfg_method cfg_routePath set_schema js_or truthy].
  apply respread.
Qed.

(** X10 - The hook is idempotent: it never fails, and run again on the route
    it returned (same prefix, method and path) it returns that route
    unchanged, schema included, property for property and in the same
    order. *)
Theorem onRoute_idempotent (fastify_prefix : string) (opts : options)
    (config : route_config) :
  exists config' : route_config,
    onRoute fastify_prefix opts config = inr config'
    /\ onRoute fastify_prefix opts config' = inr config'.
Proof.
  destruct (String.eqb_spec (cfg_prefix config) fastify_prefix) as [Hp|Hp].
  - destruct (truthy (maybeSchema opts config)) eqn:Ht.
    + exists (set_schema config (VObject (merged_schema opts config))).
      split; [apply onRoute_hit; assumption|].
      rewrite onRoute_hit; [|exact Hp|exact Ht].
      rewrite merged_schema_again. reflexivity.
    + exists (set_schema config (js_or (cfg_schema config) (VObject []))).
      rewrite !onRoute_miss; [|exact Ht|exact Ht].
      simpl cfg_prefix. rewrite Hp, String.eqb_refl. split; [reflexivity|].
      simpl cfg_schema.
      rewrite (js_or_truthy _ _ (js_or_object_truthy _)). reflexivity.
  - exists config. apply String.eqb_neq in Hp. unfold onRoute. rewrite Hp.
    split; reflexivity.
Qed.

(** * How registration can end *)

Section RegistrationOutcomes.

Variable toUpperCase : string -> string.
Variable server : server_behaviour.

Local Abbreviation register' := (register toUpperCase server).
Local Abbreviation method_ok' := (method_ok toUpperCase).
Local Abbreviation entry_ok' := (entry_ok toUpperCase).

(** The body of the loop completes for an own key only when the entry is
    accepted, and otherwise throws one of its three errors or what the
    server threw at the route it was handed. *)
Lemma register_outcome (s : service_object) (path : string) (t : trace) :
  hasOwnProperty s path = true ->
  match snd (register' s path t) with
  | inr _ => entry_ok' s path = true
  | inl e =>
      e = Error (unknown_method_message path (method_token path))
      \/ e = TypeError "handler" \/ e = Error "Unknown handler"
      \/ exists c, server t c = Some e
                   /\ fst (register' s path t) = t ++ [c]
  end.
Proof.
  intros Hown.
  destruct (method_ok' path) eqn:Hm;
    [|rewrite (register_bad_method _ _ _ _ _ Hown Hm); left; reflexivity].
  destruct (handler_ok (service_get s path)) eqn:Hh.
  - assert (Hok : entry_ok' s path = true).
    { unfold entry_ok. rewrite Hm, Hh. reflexivity. }
    destruct (register_accepted toUpperCase server s path Hown Hok)
      as [_ Hrun].
    rewrite Hrun. unfold fastify. simpl.
    destruct (server t (Call_route (entry_route toUpperCase s path)))
      as [e|] eqn:Hc; [|exact Hok].
    right. right. right. eexists. split; [exact Hc | reflexivity].
  - rewrite (register_bad_handler _ _ _ _ _ Hown Hm Hh). simpl.
    unfold bad_handler_error.
    destruct (typeof (service_get s path) =? "object"); right; auto.
Qed.

Lemma for_each_outcome (s : service_object) (paths : list string) (t : trace) :
  Forall (fun path => hasOwnProperty s path = true) paths ->
  match snd (for_each paths (register' s) t) with
  | inr _ => Forall (fun path => entry_ok' s path = true) paths
  | inl e =>
      (exists path, In path paths
                    /\ e = Error (unknown_method_message path (method_token path)))
      \/ e = TypeError "handler" \/ e = Error "Unknown handler"
      \/ exists t' c, server t' c = Some e
                      /\ fst (for_each paths (register' s) t) = t' ++ [c]
  end.
Proof.
  revert t. induction paths as [|path paths IH]; intros t Hown; simpl.
  - constructor.
  - inversion Hown as [|? ? Hown1 Hown']; subst.
    unfold bind. pose proof (register_outcome s path t Hown1) as Hbody.
    destruct (register' s path t) as [t1 [e|[]]]; simpl in Hbody |- *.
    + destruct Hbody as [->|[->|[->|[c [Hc ->]]]]].
      * left. exists path. split; [left|]; reflexivity.
      * right. left. reflexivity.
      * right. right. left. reflexivity.
      * right. right. right. exists t, c. split; [exact Hc | reflexivity].
    + specialize (IH t1 Hown').
      destruct (for_each paths (register' s) t1) as [t2 [e|u]]; simpl in IH |- *.
      * destruct IH as [[p [Hin ->]]|IH]; [|right; exact IH].
        left. exists p. split; [right; exact Hin | reflexivity].
      * constructor; assumption.
Qed.

(** X12 - [addSchema] completes only when the schema has a truthy [$id] and
    every own entry of the service declaration is accepted (known method,
    handler a non-null object or a function). *)
Theorem addSchema_completes_only_if (fastify_prefix : string)
    (opts : options) (t : trace) :
  snd (addSchema toUpperCase server fastify_prefix opts t) = inr tt ->
  truthy (js_get_opt (jsonSchema_schema opts) "$id") = true
  /\ Forall (fun path => entry_ok' (service opts) path = true)
            (keys (own (service opts))).
Proof.
  intros Hdone.
  destruct (truthy (js_get_opt (jsonSchema_schema opts) "$id")) eqn:Hid.
  - split; [reflexivity|].
    rewrite (addSchema_calls _ _ _ _ _ Hid) in Hdone.
    match type of Hdone with
    | context [bind (calls server ?cs) ?k ?t0] =>
        destruct (calls_bind_cases server cs k t0)
          as [[_ Hrun]|[l1 [c [l2 [e [_ [_ [_ Hrun]]]]]]]]
    end; rewrite Hrun in Hdone; [|discriminate Hdone].
    rewrite for_each_for_in in Hdone.
    pose proof (for_each_outcome (service opts) _
                  (t ++ setup_calls fastify_prefix opts)
                  (Forall_own_keys _)) as Hout.
    rewrite Hdone in Hout. exact Hout.
  - rewrite (addSchema_missing_id _ _ _ _ _ Hid) in Hdone. discriminate Hdone.
Qed.

(** X13 - An exception [addSchema] ends with is one of its own - the
    missing-[$id] error, the unknown-method error for one of the own keys,
    the [TypeError] of reading [handler] on [null], "Unknown handler" - or
    the one the server threw at the last call made into it. *)
Theorem addSchema_errors (fastify_prefix : string) (opts : options)
    (t : trace) :
  match snd (addSchema toUpperCase server fastify_prefix opts t) with
  | inr _ => True
  | inl e =>
      addSchema_error (service opts) e
      \/ exists t' c,
           server t' c = Some e
           /\ fst (addSchema toUpperCase server fastify_prefix opts t)
              = t' ++ [c]
  end.
Proof.
  unfold addSchema_error.
  destruct (truthy (js_get_opt (jsonSchema_schema opts) "$id")) eqn:Hid.
  - rewrite (addSchema_calls _ _ _ _ _ Hid).
    match goal with
    | |- context [bind (calls server ?cs) ?k ?t0] =>
        destruct (calls_bind_cases server cs k t0)
          as [[_ Hrun]|[l1 [c [l2 [e [_ [_ [Hc Hrun]]]]]]]]
    end; rewrite Hrun.
    + rewrite for_each_for_in.
      pose proof (for_each_outcome (service opts) _
                    (t ++ setup_calls fastify_prefix opts)
                    (Forall_own_keys _)) as Hout.
      destruct (for_each (keys (own (service opts)))
                  (register' (service opts))
                  (t ++ setup_calls fastify_prefix opts)) as [t2 [e|u]];
        simpl in Hout |- *; [|exact I].
      destruct Hout as [H|[H|[H|H]]]; [left; right; left|left; right; right; left
                                       |left; right; right; right|right];
        exact H.
    + simpl. right. exists (t ++ l1), c. split; [exact Hc|].
      rewrite app_assoc. reflexivity.
  - rewrite (addSchema_missing_id _ _ _ _ _ Hid). left. left. reflexivity.
Qed.

End RegistrationOutcomes.

(** ** The further statements at concrete inputs *)

(** Both own entries of [opts_two_routes] are accepted; the inherited one is
    not visited; the server lets every call return. *)
Lemma all_entries_registered_witness :
  exists routes : list obj,
    addSchema toUpperCase_ascii quiet_server "" opts_two_routes []
    = ([] ++ setup_calls "" opts_two_routes ++ map Call_route routes, inr tt)
    /\ Forall2 (registered_as toUpperCase_ascii)
         (keys (own (service opts_two_routes))) routes.
Proof.
  apply (all_entries_registered toUpperCase_ascii quiet_server ""
           opts_two_routes []).
  - reflexivity.
  - repeat constructor.
  - all_accepted.
Defined.

(** The second entry of [opts_bad_handler] is a string. *)
Lemma bad_handler_aborts_at_entry_witness :
  exists routes : list obj,
    addSchema toUpperCase_ascii quiet_server "" opts_bad_handler []
    = ([] ++ setup_calls "" opts_bad_handler ++ map Call_route routes,
       inl (bad_handler_error
              (service_get (service opts_bad_handler) "GET /b")))
    /\ Forall2 (registered_as toUpperCase_ascii)
         (keys [("GET /a", VFunction 0)]) routes.
Proof.
  apply (bad_handler_aborts_at_entry toUpperCase_ascii quiet_server ""
           opts_bad_handler [("GET /a", VFunction 0)] "GET /b"
           (VString "handler") [] []).
  - reflexivity.
  - reflexivity.
  - repeat constructor.
  - reflexivity.
  - reflexivity.
  - all_accepted.
Defined.

(** The object entry "post /login" of [opts_two_routes], which carries a
    [url] and a [bodyLimit] of its own. *)
Lemma object_entry_options_witness :
  exists routeOptions : obj,
    register toUpperCase_ascii quiet_server (service opts_two_routes)
      "post /login" []
    = ([] ++ [Call_route routeOptions],
       match quiet_server [] (Call_route routeOptions) with
       | Some e => inl e
       | None => inr tt
       end)
    /\ forall k,
         obj_get k routeOptions
         = if "url" =? k then Some (VString (url_of "post /login"))
           else if "method" =? k
                then Some (VString (toUpperCase_ascii (method_token "post /login")))
           else if "handler" =? k
                then Some (get_own (service_get (service opts_two_routes)
                                      "post /login") "handler")
           else obj_get k (own_props (service_get (service opts_two_routes)
                                        "post /login")).
Proof.
  apply (object_entry_options toUpperCase_ascii quiet_server
           (service opts_two_routes) "post /login" []).
  - reflexivity.
  - reflexivity.
  - reflexivity.
  - reflexivity.
  - nodup_keys.
Defined.

(** The empty key of [opts_empty_key]. *)
Lemma empty_method_token_rejected_witness :
  register toUpperCase_ascii quiet_server (service opts_empty_key) "" []
  = ([], inl (Error (unknown_method_message "" ""))).
Proof.
  apply (empty_method_token_rejected toUpperCase_ascii quiet_server
           (service opts_empty_key) "" []).
  - reflexivity.
  - left. reflexivity.
Defined.

(** The [summary] of a root route declared with [summary_schema]. *)
Lemma declared_keys_survive_witness :
  exists s : value,
    resolved_schema "" opts_root (mkConfig "" "GET" "/" summary_schema) = inr s
    /\ obj_has "summary" (own_props s) = true.
Proof.
  apply (declared_keys_survive "" opts_root
           (mkConfig "" "GET" "/" summary_schema) "summary").
  reflexivity.
Defined.

(** [opts_two_routes] is registered to the end. *)
Lemma addSchema_completes_only_if_witness :
  truthy (js_get_opt (jsonSchema_schema opts_two_routes) "$id") = true
  /\ Forall (fun path => entry_ok toUpperCase_ascii (service opts_two_routes)
                           path = true)
            (keys (own (service opts_two_routes))).
Proof.
  apply (addSchema_completes_only_if toUpperCase_ascii quiet_server ""
           opts_two_routes []).
  reflexivity.
Defined.
